(** * helpmotion.py: optical-flow colour encoding

    A shallow embedding of [make_colorwheel], [flow_compute_color],
    [flow_to_color] and the quantisation of [flow2img].

    Numeric conventions of the embedding.
    - Floating-point arrays are arrays of real numbers ([R]): [np.sqrt] is
      [sqrt], [np.floor] is [Zfloor], [np.pi] is [PI], and [np.arctan2] is the
      two-argument arctangent with values in (-PI, PI].  Rounding, NaN,
      infinities and the sign of zero are not represented.
    - The colour wheel only ever holds whole numbers (each entry is 0, 255, a
      floor, or 255 minus a floor), so its entries are kept as [Z] and
      injected into [R] where the code divides by 255.0.
    - [int32] and [uint8] values are [Z] with the wrap-around written out.
    - A torch tensor is its shape together with its elements in row-major
      order; a 2-D numpy array is a list of rows. *)

From Stdlib Require Import Reals Lra Lia ZArith List Bool Arith.
Import ListNotations.
From Stdlib Require String Ascii DecimalString DecimalNat.

(** ** Exceptions *)

Inductive exn : Type :=
| AssertionError
| ValueError
| IndexError.

Inductive result (A : Type) : Type :=
| Ok (a : A)
| Raise (e : exn).

Arguments Ok {A} a.
Arguments Raise {A} e.

Definition bind {A B : Type} (m : result A) (k : A -> result B) : result B :=
  match m with
  | Ok a => k a
  | Raise e => Raise e
  end.

Notation "x <- m ;; k" := (bind m (fun x => k))
  (at level 61, m at next level, right associativity).

(** ** List helpers shared by the array operations *)

Fixpoint set_nth {A : Type} (n : nat) (x : A) (l : list A) : list A :=
  match l, n with
  | [], _ => []
  | _ :: t, O => x :: t
  | h :: t, S n' => h :: set_nth n' x t
  end.

Fixpoint map2 {A B C : Type} (f : A -> B -> C) (l : list A) (m : list B)
  : list C :=
  match l, m with
  | a :: l', b :: m' => f a b :: map2 f l' m'
  | _, _ => []
  end.

(** ** make_colorwheel *)

Module Wheel.

Definition RY : nat := 15.
Definition YG : nat := 6.
Definition GC : nat := 4.
Definition CB : nat := 11.
Definition BM : nat := 13.
Definition MR : nat := 6.

(** [np.zeros((rows, cols))] *)
Definition zeros (rows cols : nat) : list (list Z) :=
  repeat (repeat 0%Z cols) rows.

(** [np.floor(255 * np.arange(0, n) / n)]: the quotient of two small whole
    numbers, floored. *)
Definition ramp (n : nat) : list Z :=
  map (fun i => (255 * Z.of_nat i / Z.of_nat n)%Z) (seq 0 n).

(** [255 - np.floor(255 * np.arange(0, n) / n)] *)
Definition ramp_down (n : nat) : list Z :=
  map (fun x => (255 - x)%Z) (ramp n).

(** The scalar 255 broadcast over a slice of [n] rows. *)
Definition full (n : nat) : list Z := repeat 255%Z n.

(** [colorwheel[lo:lo+len(vals), ch] = vals] *)
Definition assign_col (lo ch : nat) (vals : list Z) (cw : list (list Z))
  : list (list Z) :=
  fold_left
    (fun acc iv => set_nth (fst iv) (set_nth ch (snd iv) (nth (fst iv) acc [])) acc)
    (combine (seq lo (length vals)) vals) cw.

Definition make_colorwheel : list (list Z) :=
  let ncols := (RY + YG + GC + CB + BM + MR)%nat in
  let colorwheel := zeros ncols 3 in
  let col := 0%nat in
  (* RY *)
  let colorwheel := assign_col 0 0 (full RY) colorwheel in
  let colorwheel := assign_col 0 1 (ramp RY) colorwheel in
  let col := (col + RY)%nat in
  (* YG *)
  let colorwheel := assign_col col 0 (ramp_down YG) colorwheel in
  let colorwheel := assign_col col 1 (full YG) colorwheel in
  let col := (col + YG)%nat in
  (* GC *)
  let colorwheel := assign_col col 1 (full GC) colorwheel in
  let colorwheel := assign_col col 2 (ramp GC) colorwheel in
  let col := (col + GC)%nat in
  (* CB *)
  let colorwheel := assign_col col 1 (ramp_down CB) colorwheel in
  let colorwheel := assign_col col 2 (full CB) colorwheel in
  let col := (col + CB)%nat in
  (* BM *)
  let colorwheel := assign_col col 2 (full BM) colorwheel in
  let colorwheel := assign_col col 0 (ramp BM) colorwheel in
  let col := (col + BM)%nat in
  (* MR *)
  let colorwheel := assign_col col 2 (ramp_down MR) colorwheel in
  let colorwheel := assign_col col 0 (full MR) colorwheel in
  colorwheel.

(** The six hue segments, in wheel order, each as the list of its rows. *)
Definition segment_RY : list (list Z) := map (fun g => [255; g; 0]%Z) (ramp RY).
Definition segment_YG : list (list Z) := map (fun r => [r; 255; 0]%Z) (ramp_down YG).
Definition segment_GC : list (list Z) := map (fun b => [0; 255; b]%Z) (ramp GC).
Definition segment_CB : list (list Z) := map (fun g => [0; g; 255]%Z) (ramp_down CB).
Definition segment_BM : list (list Z) := map (fun r => [r; 0; 255]%Z) (ramp BM).
Definition segment_MR : list (list Z) := map (fun b => [255; 0; b]%Z) (ramp_down MR).

Definition channel_ok (z : Z) : bool := ((0 <=? z) && (z <=? 255))%Z.

Definition triple_ok (row : list Z) : bool :=
  (length row =? 3)%nat && forallb channel_ok row.

End Wheel.

(** ** Numeric primitives *)

Open Scope R_scope.

Definition Rleb (x y : R) : bool := if Rle_dec x y then true else false.

(** [np.arctan2(y, x)] on real arguments: the angle of the point (x, y),
    in (-PI, PI], with [arctan2 0 0 = 0].  The reals have a single zero:
    where [np.arctan2] tells -0.0 from +0.0 (it returns -pi at (-0.0, x) for
    x < 0) this is the value at +0.0.  The statements below use only that
    the angle lies between -PI and PI. *)
Definition arctan2 (y x : R) : R :=
  if Rlt_dec 0 x then atan (y / x)
  else if Rlt_dec x 0 then
         if Rle_dec 0 y then atan (y / x) + PI else atan (y / x) - PI
  else if Rlt_dec 0 y then PI / 2
  else if Rlt_dec y 0 then - (PI / 2)
  else 0.

(** [np.floor], which returns a float. *)
Definition np_floor (x : R) : R := IZR (Zfloor x).

(** Conversion of a float to an integer type truncates toward zero; the
    fixed-width result keeps the low bits. *)
Definition Ztrunc (x : R) : Z :=
  if Rle_dec 0 x then Zfloor x else (- Zfloor (- x))%Z.

Definition wrap32 (z : Z) : Z := ((z + 2 ^ 31) mod 2 ^ 32 - 2 ^ 31)%Z.
Definition wrap8 (z : Z) : Z := (z mod 2 ^ 8)%Z.

Definition astype_int32 (x : R) : Z := wrap32 (Ztrunc x).
Definition astype_uint8 (x : R) : Z := wrap8 (Ztrunc x).

(** [np.clip(x, lo, hi)] is [minimum(maximum(x, lo), hi)]. *)
Definition np_clip (lo hi x : R) : R := Rmin (Rmax x lo) hi.

(** ** 2-D arrays

    An element-wise operation on two arrays pairs their positions.  The
    arrays the code combines always have one shape; broadcasting between
    different shapes is not represented, and the statements below are about
    arrays of the same shape. *)

Definition ndarray (A : Type) : Type := list (list A).

Definition amap {A B : Type} (f : A -> B) (x : ndarray A) : ndarray B :=
  map (map f) x.

Definition amap2 {A B C : Type} (f : A -> B -> C)
  (x : ndarray A) (y : ndarray B) : ndarray C :=
  map2 (map2 f) x y.

(** Two arrays have the same shape. *)
Definition same_shape {A B : Type} (x : ndarray A) (y : ndarray B) : Prop :=
  Forall2 (fun r s => length r = length s) x y.

Fixpoint mapM {A B : Type} (f : A -> result B) (l : list A)
  : result (list B) :=
  match l with
  | [] => Ok []
  | a :: l' => b <- f a ;; bs <- mapM f l' ;; Ok (b :: bs)
  end.

(** [tmp[k]] for one integer index: negative indices count from the end,
    anything else out of range raises. *)
Definition take (tmp : list Z) (k : Z) : result Z :=
  let n := Z.of_nat (length tmp) in
  if ((0 <=? k) && (k <? n))%Z then Ok (nth (Z.to_nat k) tmp 0%Z)
  else if ((- n <=? k) && (k <? 0))%Z then Ok (nth (Z.to_nat (k + n)) tmp 0%Z)
  else Raise IndexError.

(** [tmp[k]] for an integer index array [k]. *)
Definition atake (tmp : list Z) (k : ndarray Z) : result (ndarray Z) :=
  mapM (mapM (take tmp)) k.

(** [col[idx] = new[idx]]: positions selected by the mask take the new
    value, the others keep theirs. *)
Definition masked_set (idx : ndarray bool) (col new : ndarray R) : ndarray R :=
  amap2 (fun (b : bool) (p : R * R) => if b then snd p else fst p)
        idx (amap2 pair col new).

(** [flow_image[:, :, ch] = vals], stored as [uint8]. *)
Definition assign_channel (ch : nat) (flow_image : ndarray (list Z))
  (vals : ndarray R) : ndarray (list Z) :=
  amap2 (fun px x => set_nth ch (astype_uint8 x) px) flow_image vals.

(** ** flow_compute_color *)

(** Lines 75 and 107: [rad = np.sqrt(np.square(u) + np.square(v))] *)
Definition radius (u v : ndarray R) : ndarray R :=
  amap sqrt (amap2 Rplus (amap Rsqr u) (amap Rsqr v)).

(** Line 108: [a = np.arctan2(-v, -u) / np.pi] *)
Definition angle (u v : ndarray R) : ndarray R :=
  amap (fun t => t / PI) (amap2 arctan2 (amap Ropp v) (amap Ropp u)).

(** Line 110: [fk = (a + 1) / 2 * (ncols - 1)] *)
Definition wheel_pos (ncols : Z) (a : ndarray R) : ndarray R :=
  amap (fun t => (t + 1) / 2 * (IZR ncols - 1)) a.

(** Line 111: [k0 = np.floor(fk).astype(np.int32)] *)
Definition index_k0 (fk : ndarray R) : ndarray Z :=
  amap (fun t => astype_int32 (np_floor t)) fk.

(** Lines 112-113: [k1 = k0 + 1; k1[k1 == ncols] = 1] *)
Definition index_k1 (ncols : Z) (k0 : ndarray Z) : ndarray Z :=
  let k1 := amap (fun k => wrap32 (k + 1)) k0 in
  amap (fun k => if (k =? ncols)%Z then 1%Z else k) k1.

(** Line 114: [f = fk - k0] *)
Definition weight (fk : ndarray R) (k0 : ndarray Z) : ndarray R :=
  amap2 (fun t k => t - IZR k) fk k0.

(** Lines 122-124: the two masked assignments on [col]. *)
Definition shade (rad col : ndarray R) : ndarray R :=
  let idx := amap (fun r => Rleb r 1) rad in
  let col :=
    masked_set idx col (amap2 (fun r c => 1 - r * (1 - c)) rad col) in
  masked_set (amap negb idx) col (amap (fun c => c * 0.75) col).

(** Lines 117-120: the base colour of one wheel channel, interpolated
    between the entries [k0] and [k1]. *)
Definition interpolate (tmp : list Z) (f : ndarray R) (k0 k1 : ndarray Z)
  : result (ndarray R) :=
  t0 <- atake tmp k0 ;;
  let col0 := amap (fun z => IZR z / 255.0) t0 in
  t1 <- atake tmp k1 ;;
  let col1 := amap (fun z => IZR z / 255.0) t1 in
  Ok (amap2 Rplus (amap2 Rmult (amap (fun x => 1 - x) f) col0)
                  (amap2 Rmult f col1)).

(** One iteration of the loop over the channels of the wheel. *)
Definition channel_pass (colorwheel : list (list Z))
  (rad f : ndarray R) (k0 k1 : ndarray Z) (convert_to_bgr : bool)
  (flow_image : ndarray (list Z)) (i : nat) : result (ndarray (list Z)) :=
  let tmp := map (fun row => nth i row 0%Z) colorwheel in
  col <- interpolate tmp f k0 k1 ;;
  let col := shade rad col in
  let ch_idx := if convert_to_bgr then (2 - i)%nat else i in
  Ok (assign_channel ch_idx flow_image
        (amap (fun c => np_floor (255 * c)) col)).

Definition flow_compute_color (u v : ndarray R) (convert_to_bgr : bool)
  : result (ndarray (list Z)) :=
  let flow_image := amap (fun _ => [0; 0; 0]%Z) u in
  let colorwheel := Wheel.make_colorwheel in
  let ncols := Z.of_nat (length colorwheel) in
  let rad := radius u v in
  let a := angle u v in
  let fk := wheel_pos ncols a in
  let k0 := index_k0 fk in
  let k1 := index_k1 ncols k0 in
  let f := weight fk k0 in
  fold_left
    (fun acc i =>
       img <- acc ;; channel_pass colorwheel rad f k0 k1 convert_to_bgr img i)
    (seq 0 (length (hd [] colorwheel)))
    (Ok flow_image).

(** ** Tensors *)

Record Tensor (A : Type) : Type := mkTensor {
  shape : list nat;
  data : list A
}.

Arguments mkTensor {A} shape data.
Arguments shape {A} t.
Arguments data {A} t.

Definition dim {A : Type} (t : Tensor A) : nat := length (shape t).

(** [t[i, j, k, l]] of a 4-D tensor. *)
Definition get4 {A : Type} (d : A) (t : Tensor A) (i j k l : nat) : A :=
  match shape t with
  | [_; s1; s2; s3] => nth (((i * s1 + j) * s2 + k) * s3 + l)%nat (data t) d
  | _ => d
  end.

(** The 4-D tensor of the given shape whose element [i, j, k, l] is
    [f i j k l]. *)
Definition build4 {A : Type} (s0 s1 s2 s3 : nat)
  (f : nat -> nat -> nat -> nat -> A) : Tensor A :=
  mkTensor [s0; s1; s2; s3]
    (flat_map (fun i =>
       flat_map (fun j =>
         flat_map (fun k => map (f i j k) (seq 0 s3)) (seq 0 s2))
         (seq 0 s1))
       (seq 0 s0)).

(** [t.permute(0, 2, 3, 1)] *)
Definition permute_0231 {A : Type} (d : A) (t : Tensor A) : Tensor A :=
  match shape t with
  | [s0; s1; s2; s3] => build4 s0 s2 s3 s1 (fun i j k l => get4 d t i l j k)
  | _ => t
  end.

(** [t.permute(0, 3, 1, 2)] *)
Definition permute_0312 {A : Type} (d : A) (t : Tensor A) : Tensor A :=
  match shape t with
  | [s0; s1; s2; s3] => build4 s0 s3 s1 s2 (fun i j k l => get4 d t i k l j)
  | _ => t
  end.

(** [t.view(t.shape[0], t.shape[1] * t.shape[2], t.shape[3])] *)
Definition view_merge12 {A : Type} (t : Tensor A) : Tensor A :=
  match shape t with
  | [s0; s1; s2; s3] => mkTensor [s0; (s1 * s2)%nat; s3] (data t)
  | _ => t
  end.

(** [t[:, :, c]] of a 3-D tensor, as a 2-D array. *)
Definition slice_last {A : Type} (d : A) (c : nat) (t : Tensor A) : ndarray A :=
  match shape t with
  | [s0; s1; s2] =>
      map (fun n =>
             map (fun p => nth ((n * s1 + p) * s2 + c)%nat (data t) d) (seq 0 s1))
          (seq 0 s0)
  | _ => []
  end.

Definition tensor_map {A B : Type} (f : A -> B) (t : Tensor A) : Tensor B :=
  mkTensor (shape t) (map f (data t)).

(** [np.max(x)]: the largest element; an empty array has none. *)
Definition np_max (x : ndarray R) : result R :=
  match concat x with
  | [] => Raise ValueError
  | a :: l => Ok (fold_left Rmax l a)
  end.

(** ** flow_to_color *)

Definition epsilon : R := 1e-5.

(** Lines 65-73: the two channels of the field as [N, H*W] arrays.
    [np.clip] returns a new array and writes nothing in place; the code
    binds it to the name [flow_uv], and reads the channels from
    [flow_uv_numpy], which was taken before. *)
Definition flow_channels (flow_uv : Tensor R) (clip_flow : option R)
  : ndarray R * ndarray R :=
  let flow_uv_permute := permute_0231 0 flow_uv in
  let flow_uv_numpy := view_merge12 flow_uv_permute in
  let flow_uv :=
    match clip_flow with
    | Some c => tensor_map (np_clip 0 c) flow_uv
    | None => flow_uv
    end in
  let u := slice_last 0 0 flow_uv_numpy in
  let v := slice_last 0 1 flow_uv_numpy in
  (u, v).

(** Lines 75-83: division of both channels by [rad_max + epsilon].  The
    division is the exact one.  A divisor equal to zero (an explicit cap of
    [- epsilon]) gives inf or NaN in the code and is not represented: the
    statements about explicit caps assume [cap + epsilon <> 0]. *)
Definition normalize (u v : ndarray R) (max_mag : option R)
  : result (ndarray R * ndarray R) :=
  let rad := radius u v in
  rad_max <- np_max rad ;;
  let rad_max := match max_mag with Some m => m | None => rad_max end in
  let u := amap (fun x => x / (rad_max + epsilon)) u in
  let v := amap (fun x => x / (rad_max + epsilon)) v in
  Ok (u, v).

(** [torch.from_numpy(color).unsqueeze(0).view(N, H, W, 3)] *)
Definition from_numpy_view (s0 s1 s2 : nat) (color : ndarray (list Z))
  : Tensor Z :=
  mkTensor [s0; s1; s2; 3%nat] (concat (concat color)).

Definition flow_to_color (flow_uv : Tensor R) (max_mag clip_flow : option R)
  (convert_to_bgr : bool) : result (Tensor Z) :=
  if negb (dim flow_uv =? 4)%nat then Raise AssertionError
  else if negb (nth 1 (shape flow_uv) 0 =? 2)%nat then Raise AssertionError
  else
    let flow_uv_permute := permute_0231 0 flow_uv in
    let '(u, v) := flow_channels flow_uv clip_flow in
    uv <- normalize u v max_mag ;;
    color <- flow_compute_color (fst uv) (snd uv) convert_to_bgr ;;
    let color :=
      from_numpy_view (nth 0 (shape flow_uv_permute) 0%nat)
                      (nth 1 (shape flow_uv_permute) 0%nat)
                      (nth 2 (shape flow_uv_permute) 0%nat) color in
    Ok (permute_0312 0%Z color).

(** ** flow2img *)

(** Lines 47-48: [np.clip(x, 0, 255).astype(np.uint8)] on an [H, W, 3]
    array. *)
Definition quantize (img : list (ndarray R)) : list (ndarray Z) :=
  map (amap (fun x => astype_uint8 (np_clip 0 255 x))) img.

(** [uint8] values read back as floats. *)
Definition to_float (img : list (ndarray Z)) : list (ndarray R) :=
  map (amap IZR) img.

Definition unsqueeze0 {A : Type} (t : Tensor A) : Tensor A :=
  mkTensor (1%nat :: shape t) (data t).

(** [t[0].permute(1, 2, 0)] of a 4-D tensor, as an [H, W, C] array. *)
Definition first_hwc {A : Type} (d : A) (t : Tensor A) : list (ndarray A) :=
  match shape t with
  | [_; s1; s2; s3] =>
      map (fun h => map (fun w => map (fun c => get4 d t 0%nat c h w) (seq 0 s1))
                        (seq 0 s3))
          (seq 0 s2)
  | _ => []
  end.

Definition flow2img (flow_uv : Tensor R) : result (list (ndarray Z)) :=
  let flow_uv := unsqueeze0 flow_uv in
  color <- flow_to_color flow_uv None None false ;;
  let flow_uv := to_float (first_hwc 0%Z color) in
  Ok (quantize flow_uv).

(** ** The value computed at one pixel

    The arrays of [flow_compute_color] are all built position by position
    from [u] and [v]; these are the expressions of the code at one position. *)

Definition ncols : Z := Z.of_nat (length Wheel.make_colorwheel).

Definition px_rad (u v : R) : R := sqrt (Rsqr u + Rsqr v).
Definition px_a (u v : R) : R := arctan2 (- v) (- u) / PI.
Definition px_fk (u v : R) : R := (px_a u v + 1) / 2 * (IZR ncols - 1).
Definition px_k0 (u v : R) : Z := astype_int32 (np_floor (px_fk u v)).
Definition px_k1 (u v : R) : Z :=
  let k1 := wrap32 (px_k0 u v + 1) in if (k1 =? ncols)%Z then 1%Z else k1.
Definition px_f (u v : R) : R := px_fk u v - IZR (px_k0 u v).

(** [colorwheel[k, i]] for an index within the wheel. *)
Definition wheel_at (k : Z) (i : nat) : Z :=
  nth i (nth (Z.to_nat k) Wheel.make_colorwheel []) 0%Z.

Definition px_base (i : nat) (u v : R) : R :=
  (1 - px_f u v) * (IZR (wheel_at (px_k0 u v) i) / 255.0)
  + px_f u v * (IZR (wheel_at (px_k1 u v) i) / 255.0).

(** The shading rule: toward white within the unit radius, a fixed factor
    beyond it. *)
Definition px_shade (rad col : R) : R :=
  if Rle_dec rad 1 then 1 - rad * (1 - col) else col * 0.75.

Definition px_channel (i : nat) (u v : R) : Z :=
  astype_uint8 (np_floor (255 * px_shade (px_rad u v) (px_base i u v))).

Definition px_out (convert_to_bgr : bool) (u v : R) : list Z :=
  if convert_to_bgr
  then [px_channel 2 u v; px_channel 1 u v; px_channel 0 u v]
  else [px_channel 0 u v; px_channel 1 u v; px_channel 2 u v].

(** Exchange of channels 0 and 2 of one pixel. *)
Definition swap02 (px : list Z) : list Z :=
  [nth 2 px 0%Z; nth 1 px 0%Z; nth 0 px 0%Z].

(** What the two masked assignments do to one pixel: [rc] is the pair of
    the radius and the base colour, [out] the shaded colour. *)
Definition shading_rule (rc : R * R) (out : R) : Prop :=
  (fst rc <= 1 -> out = 1 - fst rc * (1 - snd rc))
  /\ (1 < fst rc -> out = snd rc * 0.75).

(** One-pixel fields of shape [1, 2, 1, 1], used as concrete inputs: the
    vectors (-1, 0) and (1, 1). *)
Definition field_left : Tensor R := mkTensor [1; 2; 1; 1]%nat [-1; 0].
Definition field_diag : Tensor R := mkTensor [1; 2; 1; 1]%nat [1; 1].

(** [flow_image[:, :, ch]]: one channel of an image, as a 2-D array. *)
Definition plane (ch : nat) (img : ndarray (list Z)) : ndarray Z :=
  amap (fun px => nth ch px 0%Z) img.

(** [x.shape == (n, p)] for a 2-D array. *)
Definition has_shape {A : Type} (n p : nat) (x : ndarray A) : Prop :=
  length x = n /\ Forall (fun row => length row = p) x.

(** The divisor of lines 78-83 without its epsilon: the explicit cap if
    there is one, the largest radius otherwise. *)
Definition scale_of (max_mag : option R) (rad_max : R) : R :=
  match max_mag with Some m => m | None => rad_max end.

(** ** SceneFlow

    The module holds one parameter, a tensor of zeros of the shape of the
    coordinates it is built from; [forward] returns it. *)

Record SceneFlow : Type := mkSceneFlow { scene_flow : Tensor R }.

Definition numel (shape : list nat) : nat := fold_right Nat.mul 1%nat shape.

(** [torch.zeros(shape)] *)
Definition torch_zeros (shape : list nat) : Tensor R :=
  mkTensor shape (repeat 0 (numel shape)).

Definition SceneFlow_init (coord : Tensor R) : SceneFlow :=
  let shape := shape coord in
  mkSceneFlow (torch_zeros shape).

Definition SceneFlow_forward (self : SceneFlow) : Tensor R := scene_flow self.

(** ** File names of the saved frames

    The two loops of the script save frame [idx] under
    [folder + '/' + str(idx).zfill(3) + '.png']. *)

Module Paths.

Import Stdlib.Strings.String Stdlib.Strings.Ascii.
Local Open Scope string_scope.

(** [str(n)] for a non-negative integer: its decimal digits. *)
Definition str (n : nat) : string :=
  DecimalString.NilEmpty.string_of_uint (Nat.to_uint n).

Fixpoint zeros (n : nat) : string :=
  match n with
  | O => EmptyString
  | S n' => String "0" (zeros n')
  end.

Definition is_sign (c : ascii) : bool :=
  (Ascii.eqb c "+" || Ascii.eqb c "-")%bool.

(** [s.zfill(width)]: zeros are added on the left up to [width] characters,
    after the sign if the string starts with one. *)
Definition zfill (width : nat) (s : string) : string :=
  let fill := (width - String.length s)%nat in
  match s with
  | String c rest =>
      if is_sign c then String c (zeros fill ++ rest) else zeros fill ++ s
  | EmptyString => zeros fill
  end.

Definition frame_path (folder : string) (idx : nat) : string :=
  ((folder ++ "/") ++ zfill 3 (str idx)) ++ ".png".

(** Reading a string of decimal digits back as a number. *)
Definition parse_nat (s : string) : option nat :=
  option_map Nat.of_uint (DecimalString.NilEmpty.uint_of_string s).

End Paths.

(** ** Lemmas on lists and arrays *)

Section Lists.

Context {A B C D E : Type}.

Lemma map2_ext (f g : A -> B -> C) (l : list A) (m : list B) :
  (forall a b, f a b = g a b) -> map2 f l m = map2 g l m.
Proof.
  intros Hfg. revert m.
  induction l as [|a l IH]; intros [|b m]; simpl; try reflexivity.
  now rewrite Hfg, IH.
Qed.

Lemma map_map2 (g : C -> D) (f : A -> B -> C) (l : list A) (m : list B) :
  map g (map2 f l m) = map2 (fun a b => g (f a b)) l m.
Proof.
  revert m. induction l as [|a l IH]; intros [|b m]; simpl; try reflexivity.
  now rewrite IH.
Qed.

Lemma map2_map_map (f : C -> D -> E) (g : A -> C) (h : B -> D)
  (l : list A) (m : list B) :
  map2 f (map g l) (map h m) = map2 (fun a b => f (g a) (h b)) l m.
Proof.
  revert m. induction l as [|a l IH]; intros [|b m]; simpl; try reflexivity.
  now rewrite IH.
Qed.

Lemma map2_flip (f : B -> A -> C) (l : list A) (m : list B) :
  map2 f m l = map2 (fun a b => f b a) l m.
Proof.
  revert m. induction l as [|a l IH]; intros [|b m]; simpl; try reflexivity.
  now rewrite IH.
Qed.

Lemma map2_diag (f : C -> D -> E) (g : A -> B -> C) (h : A -> B -> D)
  (l : list A) (m : list B) :
  map2 f (map2 g l m) (map2 h l m) = map2 (fun a b => f (g a b) (h a b)) l m.
Proof.
  revert m. induction l as [|a l IH]; intros [|b m]; simpl; try reflexivity.
  now rewrite IH.
Qed.

Lemma map_as_map2 (g : A -> C) (l : list A) (m : list B) :
  length l = length m -> map g l = map2 (fun a _ => g a) l m.
Proof.
  revert m. induction l as [|a l IH]; intros [|b m] Hlen; simpl in *;
    try reflexivity; try discriminate.
  now rewrite (IH m) by congruence.
Qed.

End Lists.

Section Arrays.

Context {A B C D E : Type}.

Lemma amap2_ext (f g : A -> B -> C) (x : ndarray A) (y : ndarray B) :
  (forall a b, f a b = g a b) -> amap2 f x y = amap2 g x y.
Proof.
  intros Hfg. unfold amap2. apply map2_ext. intros r s.
  now apply map2_ext.
Qed.

Lemma amap_amap2 (g : C -> D) (f : A -> B -> C) (x : ndarray A) (y : ndarray B) :
  amap g (amap2 f x y) = amap2 (fun a b => g (f a b)) x y.
Proof.
  unfold amap, amap2. rewrite map_map2. apply map2_ext. intros r s.
  apply map_map2.
Qed.

Lemma amap2_amap_amap (f : C -> D -> E) (g : A -> C) (h : B -> D)
  (x : ndarray A) (y : ndarray B) :
  amap2 f (amap g x) (amap h y) = amap2 (fun a b => f (g a) (h b)) x y.
Proof.
  unfold amap, amap2. rewrite map2_map_map. apply map2_ext. intros r s.
  apply map2_map_map.
Qed.

Lemma amap2_flip (f : B -> A -> C) (x : ndarray A) (y : ndarray B) :
  amap2 f y x = amap2 (fun a b => f b a) x y.
Proof.
  unfold amap2. rewrite map2_flip. apply map2_ext. intros r s.
  apply map2_flip.
Qed.

Lemma amap2_diag (f : C -> D -> E) (g : A -> B -> C) (h : A -> B -> D)
  (x : ndarray A) (y : ndarray B) :
  amap2 f (amap2 g x y) (amap2 h x y)
  = amap2 (fun a b => f (g a b) (h a b)) x y.
Proof.
  unfold amap2. rewrite map2_diag. apply map2_ext. intros r s.
  apply map2_diag.
Qed.

Lemma amap_as_amap2 (g : A -> C) (x : ndarray A) (y : ndarray B) :
  same_shape x y -> amap g x = amap2 (fun a _ => g a) x y.
Proof.
  unfold same_shape, amap, amap2.
  induction 1 as [|r s x y Hrs _ IH]; simpl; [reflexivity|].
  now rewrite IH, (map_as_map2 g r s Hrs).
Qed.

End Arrays.

Lemma mapM_map2 {A B C : Type} (f : C -> result Z) (k : A -> B -> C)
  (t : A -> B -> Z) (l : list A) (m : list B) :
  (forall a b, f (k a b) = Ok (t a b)) ->
  mapM f (map2 k l m) = Ok (map2 t l m).
Proof.
  intros Hf. revert m.
  induction l as [|a l IH]; intros [|b m]; simpl; try reflexivity.
  now rewrite Hf, IH.
Qed.

Lemma atake_amap2 {A B : Type} (tmp : list Z) (k t : A -> B -> Z)
  (x : ndarray A) (y : ndarray B) :
  (forall a b, take tmp (k a b) = Ok (t a b)) ->
  atake tmp (amap2 k x y) = Ok (amap2 t x y).
Proof.
  intros Hk. unfold atake, amap2. revert y.
  induction x as [|r x IH]; intros [|s y]; simpl; try reflexivity.
  now rewrite (mapM_map2 _ k t r s Hk), IH.
Qed.

(** ** Facts on the numeric primitives *)

Lemma ncols_55 : ncols = 55%Z.
Proof. vm_compute. reflexivity. Qed.

Lemma atan_pos (t : R) : 0 < t -> 0 < atan t.
Proof. intros Ht. rewrite <- atan_0. now apply atan_increasing. Qed.

Lemma atan_nonpos (t : R) : t <= 0 -> atan t <= 0.
Proof.
  intros [Ht|Ht].
  - left. rewrite <- atan_0. now apply atan_increasing.
  - subst t. rewrite atan_0. lra.
Qed.

Lemma div_neg_nonneg (y x : R) : x < 0 -> 0 <= y -> y / x <= 0.
Proof.
  intros Hx Hy. unfold Rdiv.
  assert (Hi : / x < 0) by now apply Rinv_neg.
  nra.
Qed.

Lemma div_neg_neg (y x : R) : x < 0 -> y < 0 -> 0 < y / x.
Proof.
  intros Hx Hy. unfold Rdiv.
  assert (Hi : / x < 0) by now apply Rinv_neg.
  nra.
Qed.

(** The angle lies between -PI and PI, both ends included: the bound that
    also holds of [np.arctan2], which returns -pi on a negative zero. *)
Lemma arctan2_bound (y x : R) : - PI <= arctan2 y x <= PI.
Proof.
  assert (Hpi := PI_RGT_0).
  unfold arctan2.
  destruct (Rlt_dec 0 x) as [Hx|Hx].
  - destruct (atan_bound (y / x)). lra.
  - destruct (Rlt_dec x 0) as [Hx'|Hx'].
    + destruct (Rle_dec 0 y) as [Hy|Hy].
      * assert (atan (y / x) <= 0)
          by (apply atan_nonpos; now apply div_neg_nonneg).
        destruct (atan_bound (y / x)). lra.
      * assert (0 < atan (y / x))
          by (apply atan_pos; apply div_neg_neg; lra).
        destruct (atan_bound (y / x)). lra.
    + destruct (Rlt_dec 0 y); [lra|].
      destruct (Rlt_dec y 0); lra.
Qed.

Lemma px_a_bound (u v : R) : -1 <= px_a u v <= 1.
Proof.
  assert (Hpi := PI_RGT_0).
  destruct (arctan2_bound (- v) (- u)) as [Hlo Hhi].
  unfold px_a.
  assert (E : arctan2 (- v) (- u) = arctan2 (- v) (- u) / PI * PI)
    by (field; lra).
  nra.
Qed.

Lemma px_fk_bound (u v : R) : 0 <= px_fk u v <= 54.
Proof.
  destruct (px_a_bound u v). unfold px_fk. rewrite ncols_55. lra.
Qed.

Lemma Ztrunc_IZR (z : Z) : Ztrunc (IZR z) = z.
Proof.
  unfold Ztrunc. destruct (Rle_dec 0 (IZR z)).
  - apply ZfloorZ.
  - rewrite ZfloorNZ. lia.
Qed.

Lemma wrap32_small (z : Z) : (- 2 ^ 31 <= z < 2 ^ 31)%Z -> wrap32 z = z.
Proof.
  intros Hz. unfold wrap32. rewrite Z.mod_small; lia.
Qed.

Lemma wrap8_small (z : Z) : (0 <= z <= 255)%Z -> wrap8 z = z.
Proof.
  intros Hz. unfold wrap8. rewrite Z.mod_small; lia.
Qed.

Lemma Zfloor_range (x : R) (lo hi : Z) :
  IZR lo <= x <= IZR hi -> (lo <= Zfloor x <= hi)%Z.
Proof.
  intros [Hlo Hhi]. split.
  - now apply Zfloor_lub.
  - apply le_IZR. destruct (Zfloor_bound x). lra.
Qed.

Lemma px_k0_floor (u v : R) : px_k0 u v = Zfloor (px_fk u v).
Proof.
  unfold px_k0, astype_int32, np_floor. rewrite Ztrunc_IZR.
  apply wrap32_small.
  assert (H : (0 <= Zfloor (px_fk u v) <= 54)%Z)
    by (apply Zfloor_range; destruct (px_fk_bound u v); simpl; lra).
  lia.
Qed.

Lemma px_k0_range (u v : R) : (0 <= px_k0 u v <= 54)%Z.
Proof.
  rewrite px_k0_floor. apply Zfloor_range.
  destruct (px_fk_bound u v). simpl. lra.
Qed.

Lemma px_k1_step (u v : R) :
  px_k1 u v = if (px_k0 u v + 1 =? 55)%Z then 1%Z else (px_k0 u v + 1)%Z.
Proof.
  unfold px_k1. rewrite ncols_55.
  assert (H := px_k0_range u v).
  rewrite wrap32_small by lia. reflexivity.
Qed.

Lemma px_k1_range (u v : R) : (1 <= px_k1 u v <= 54)%Z.
Proof.
  rewrite px_k1_step. assert (H := px_k0_range u v).
  destruct (Z.eqb_spec (px_k0 u v + 1) 55); lia.
Qed.

Lemma px_f_range (u v : R) : 0 <= px_f u v < 1.
Proof.
  unfold px_f. rewrite px_k0_floor.
  destruct (Zfloor_bound (px_fk u v)). lra.
Qed.

(** ** Ranges of the per-pixel values *)

Lemma wheel_entries_ok :
  forallb (forallb Wheel.channel_ok) Wheel.make_colorwheel = true.
Proof. vm_compute. reflexivity. Qed.

Lemma entries_ok_nth (cw : list (list Z)) (k i : nat) :
  forallb (forallb Wheel.channel_ok) cw = true ->
  (0 <= nth i (nth k cw []) 0 <= 255)%Z.
Proof.
  intros Hall.
  destruct (nth_in_or_default k cw []) as [Hrow|Hrow].
  - rewrite forallb_forall in Hall. specialize (Hall _ Hrow).
    rewrite forallb_forall in Hall.
    destruct (nth_in_or_default i (nth k cw []) 0%Z) as [Hin|Hd].
    + specialize (Hall _ Hin). unfold Wheel.channel_ok in Hall.
      apply andb_true_iff in Hall. destruct Hall as [H0 H1].
      apply Z.leb_le in H0. apply Z.leb_le in H1. lia.
    + rewrite Hd. lia.
  - rewrite Hrow. destruct i; simpl; lia.
Qed.

Lemma wheel_at_range (k : Z) (i : nat) : (0 <= wheel_at k i <= 255)%Z.
Proof. apply entries_ok_nth, wheel_entries_ok. Qed.

Lemma wheel_unit (k : Z) (i : nat) : 0 <= IZR (wheel_at k i) / 255.0 <= 1.
Proof.
  destruct (wheel_at_range k i) as [H0 H1].
  apply IZR_le in H0. apply IZR_le in H1. lra.
Qed.

Lemma px_base_range (i : nat) (u v : R) : 0 <= px_base i u v <= 1.
Proof.
  unfold px_base.
  destruct (px_f_range u v).
  destruct (wheel_unit (px_k0 u v) i).
  destruct (wheel_unit (px_k1 u v) i).
  nra.
Qed.

Lemma px_rad_nonneg (u v : R) : 0 <= px_rad u v.
Proof. apply sqrt_pos. Qed.

Lemma px_shade_range (rad col : R) :
  0 <= rad -> 0 <= col <= 1 -> 0 <= px_shade rad col <= 1.
Proof.
  intros Hr Hc. unfold px_shade.
  destruct (Rle_dec rad 1); [nra | lra].
Qed.

Lemma uint8_floor_range (x : R) :
  0 <= x <= 255 ->
  astype_uint8 (np_floor x) = Zfloor x /\ (0 <= Zfloor x <= 255)%Z.
Proof.
  intros Hx.
  assert (H : (0 <= Zfloor x <= 255)%Z) by (apply Zfloor_range; simpl; lra).
  split; [|exact H].
  unfold astype_uint8, np_floor. rewrite Ztrunc_IZR. now apply wrap8_small.
Qed.

Lemma px_channel_floor (i : nat) (u v : R) :
  px_channel i u v = Zfloor (255 * px_shade (px_rad u v) (px_base i u v)).
Proof.
  unfold px_channel.
  destruct (px_shade_range (px_rad u v) (px_base i u v)
              (px_rad_nonneg u v) (px_base_range i u v)).
  apply uint8_floor_range. lra.
Qed.

Lemma px_channel_range (i : nat) (u v : R) : (0 <= px_channel i u v <= 255)%Z.
Proof.
  rewrite px_channel_floor.
  destruct (px_shade_range (px_rad u v) (px_base i u v)
              (px_rad_nonneg u v) (px_base_range i u v)).
  apply Zfloor_range. simpl. lra.
Qed.

(** ** flow_compute_color, position by position *)

Lemma radius_px (u v : ndarray R) : radius u v = amap2 px_rad u v.
Proof.
  unfold radius. rewrite amap2_amap_amap, amap_amap2. reflexivity.
Qed.

Lemma angle_px (u v : ndarray R) : angle u v = amap2 px_a u v.
Proof.
  unfold angle. rewrite amap2_amap_amap, amap2_flip, amap_amap2. reflexivity.
Qed.

Lemma wheel_pos_px (u v : ndarray R) :
  wheel_pos (Z.of_nat (length Wheel.make_colorwheel)) (amap2 px_a u v)
  = amap2 px_fk u v.
Proof.
  unfold wheel_pos. rewrite amap_amap2. unfold px_fk, ncols. reflexivity.
Qed.

Lemma index_k0_px (u v : ndarray R) :
  index_k0 (amap2 px_fk u v) = amap2 px_k0 u v.
Proof. unfold index_k0. rewrite amap_amap2. reflexivity. Qed.

Lemma index_k1_px (u v : ndarray R) :
  index_k1 (Z.of_nat (length Wheel.make_colorwheel)) (amap2 px_k0 u v)
  = amap2 px_k1 u v.
Proof.
  unfold index_k1. rewrite !amap_amap2. unfold px_k1, ncols. reflexivity.
Qed.

Lemma weight_px (u v : ndarray R) :
  weight (amap2 px_fk u v) (amap2 px_k0 u v) = amap2 px_f u v.
Proof. unfold weight. rewrite amap2_diag. reflexivity. Qed.

Lemma take_column (cw : list (list Z)) (i : nat) (k : Z) :
  (0 <= k < Z.of_nat (length cw))%Z ->
  take (map (fun row => nth i row 0%Z) cw) k
  = Ok (nth i (nth (Z.to_nat k) cw []) 0%Z).
Proof.
  intros Hk. unfold take. rewrite length_map.
  destruct (Z.leb_spec 0 k); [|lia].
  destruct (Z.ltb_spec k (Z.of_nat (length cw))); [|lia].
  simpl. f_equal.
  rewrite (nth_indep _ 0%Z (nth i [] 0%Z)) by (rewrite length_map; lia).
  apply (map_nth (fun row => nth i row 0%Z)).
Qed.

Lemma wheel_length : length Wheel.make_colorwheel = 55%nat.
Proof. vm_compute. reflexivity. Qed.

Lemma wheel_width : length (hd [] Wheel.make_colorwheel) = 3%nat.
Proof. vm_compute. reflexivity. Qed.

Lemma take_wheel (i : nat) (k : Z) :
  (0 <= k <= 54)%Z ->
  take (map (fun row => nth i row 0%Z) Wheel.make_colorwheel) k
  = Ok (wheel_at k i).
Proof.
  intros Hk. apply take_column. rewrite wheel_length. lia.
Qed.

Lemma interpolate_px (i : nat) (u v : ndarray R) :
  interpolate (map (fun row => nth i row 0%Z) Wheel.make_colorwheel)
    (amap2 px_f u v) (amap2 px_k0 u v) (amap2 px_k1 u v)
  = Ok (amap2 (px_base i) u v).
Proof.
  unfold interpolate.
  rewrite (atake_amap2 _ px_k0 (fun a b => wheel_at (px_k0 a b) i))
    by (intros a b; apply take_wheel, px_k0_range).
  cbn [bind].
  rewrite (atake_amap2 _ px_k1 (fun a b => wheel_at (px_k1 a b) i))
    by (intros a b; apply take_wheel; pose proof (px_k1_range a b); lia).
  cbn [bind].
  rewrite !amap_amap2, !amap2_diag. reflexivity.
Qed.

Lemma shade_px {A B : Type} (r c : A -> B -> R) (x : ndarray A) (y : ndarray B) :
  shade (amap2 r x y) (amap2 c x y)
  = amap2 (fun a b => px_shade (r a b) (c a b)) x y.
Proof.
  unfold shade, masked_set.
  repeat first [rewrite amap_amap2 | rewrite amap2_diag].
  apply amap2_ext. intros a b. unfold px_shade, Rleb.
  destruct (Rle_dec (r a b) 1); reflexivity.
Qed.

Lemma channel_pass_px (bgr : bool) (i : nat) (img : R -> R -> list Z)
  (u v : ndarray R) :
  channel_pass Wheel.make_colorwheel (amap2 px_rad u v) (amap2 px_f u v)
    (amap2 px_k0 u v) (amap2 px_k1 u v) bgr (amap2 img u v) i
  = Ok (amap2 (fun a b =>
                 set_nth (if bgr then (2 - i)%nat else i)
                         (px_channel i a b) (img a b)) u v).
Proof.
  unfold channel_pass. rewrite interpolate_px. cbn [bind].
  rewrite shade_px, amap_amap2. unfold assign_channel.
  rewrite amap2_diag. reflexivity.
Qed.

(** The image is computed pixel by pixel from [u] and [v]. *)
Lemma flow_compute_color_px (u v : ndarray R) (bgr : bool) :
  same_shape u v ->
  flow_compute_color u v bgr = Ok (amap2 (px_out bgr) u v).
Proof.
  intros Hs. unfold flow_compute_color. cbv zeta.
  rewrite radius_px, angle_px, wheel_pos_px, index_k0_px, index_k1_px,
    weight_px.
  rewrite (amap_as_amap2 _ u v Hs).
  rewrite wheel_width.
  cbn [seq fold_left bind].
  rewrite channel_pass_px. cbn [bind].
  rewrite channel_pass_px. cbn [bind].
  rewrite channel_pass_px.
  f_equal. apply amap2_ext. intros a b.
  destruct bgr; reflexivity.
Qed.

Lemma wheel_pos_ncols (u v : ndarray R) :
  wheel_pos ncols (amap2 px_a u v) = amap2 px_fk u v.
Proof. exact (wheel_pos_px u v). Qed.

Lemma index_k1_ncols (u v : ndarray R) :
  index_k1 ncols (amap2 px_k0 u v) = amap2 px_k1 u v.
Proof. exact (index_k1_px u v). Qed.

Lemma Forall2_amap2 {A B C D : Type} (P : C -> D -> Prop)
  (f : A -> B -> C) (g : A -> B -> D) (x : ndarray A) (y : ndarray B) :
  (forall a b, P (f a b) (g a b)) ->
  Forall2 (Forall2 P) (amap2 f x y) (amap2 g x y).
Proof.
  intros HP. unfold amap2. revert y.
  induction x as [|r x IH]; intros [|s y]; simpl; try constructor; [|apply IH].
  revert s. induction r as [|a r IHr]; intros [|b s]; simpl;
    try constructor; [apply HP | apply IHr].
Qed.

Lemma Forall_amap2 {A B C : Type} (P : C -> Prop)
  (f : A -> B -> C) (x : ndarray A) (y : ndarray B) :
  (forall a b, P (f a b)) -> Forall (Forall P) (amap2 f x y).
Proof.
  intros HP. unfold amap2. revert y.
  induction x as [|r x IH]; intros [|s y]; simpl; try constructor; [|apply IH].
  revert s. induction r as [|a r IHr]; intros [|b s]; simpl;
    try constructor; [apply HP | apply IHr].
Qed.

Lemma triple_ok_Forall (cw : list (list Z)) :
  forallb Wheel.triple_ok cw = true ->
  Forall (fun row => length row = 3%nat
                     /\ Forall (fun z => (0 <= z <= 255)%Z) row) cw.
Proof.
  intros Hall. apply Forall_forall. intros row Hrow.
  rewrite forallb_forall in Hall. specialize (Hall _ Hrow).
  unfold Wheel.triple_ok in Hall. apply andb_true_iff in Hall.
  destruct Hall as [Hlen Hch]. split.
  - now apply Nat.eqb_eq.
  - apply Forall_forall. intros z Hz.
    rewrite forallb_forall in Hch. specialize (Hch _ Hz).
    unfold Wheel.channel_ok in Hch. apply andb_true_iff in Hch.
    destruct Hch as [H0 H1]. apply Z.leb_le in H0. apply Z.leb_le in H1. lia.
Qed.

Lemma wheel_triples_ok : forallb Wheel.triple_ok Wheel.make_colorwheel = true.
Proof. vm_compute. reflexivity. Qed.

(** * The colour wheel *)

(** C2.  [make_colorwheel] returns 55 colour triples: the six hue segments
    RY, YG, GC, CB, BM, MR laid end to end, of lengths 15, 6, 4, 11, 13 and
    6, which add up to 55; every channel of every entry is a whole number
    between 0 and 255. *)
Theorem make_colorwheel_palette :
  length Wheel.make_colorwheel = 55%nat
  /\ Wheel.make_colorwheel
     = Wheel.segment_RY ++ Wheel.segment_YG ++ Wheel.segment_GC
       ++ Wheel.segment_CB ++ Wheel.segment_BM ++ Wheel.segment_MR
  /\ map (@length (list Z))
       [Wheel.segment_RY; Wheel.segment_YG; Wheel.segment_GC;
        Wheel.segment_CB; Wheel.segment_BM; Wheel.segment_MR]
     = [15; 6; 4; 11; 13; 6]%nat
  /\ (15 + 6 + 4 + 11 + 13 + 6 = 55)%nat
  /\ Forall (fun row => length row = 3%nat
                        /\ Forall (fun z => (0 <= z <= 255)%Z) row)
       Wheel.make_colorwheel.
Proof.
  split; [exact wheel_length|].
  split; [vm_compute; reflexivity|].
  split; [vm_compute; reflexivity|].
  split; [reflexivity|].
  apply triple_ok_Forall, wheel_triples_ok.
Qed.

(** * The wheel indices *)

Lemma plane_px (bgr : bool) (i : nat) (u v : ndarray R) :
  (i < 3)%nat ->
  plane (if bgr then (2 - i)%nat else i) (amap2 (px_out bgr) u v)
  = amap2 (px_channel i) u v.
Proof.
  intros Hi. unfold plane. rewrite amap_amap2. apply amap2_ext. intros a b.
  unfold px_out.
  destruct i as [|[|[|i]]]; [| | |exfalso; lia];
    destruct bgr; cbn [nth Nat.sub]; reflexivity.
Qed.

Lemma atake_k0 (i : nat) (u v : ndarray R) :
  atake (map (fun row => nth i row 0%Z) Wheel.make_colorwheel)
    (amap2 px_k0 u v)
  = Ok (amap (fun k => wheel_at k i) (amap2 px_k0 u v)).
Proof.
  rewrite amap_amap2. apply atake_amap2. intros a b.
  apply take_wheel, px_k0_range.
Qed.

Lemma atake_k1 (i : nat) (u v : ndarray R) :
  atake (map (fun row => nth i row 0%Z) Wheel.make_colorwheel)
    (amap2 px_k1 u v)
  = Ok (amap (fun k => wheel_at k i) (amap2 px_k1 u v)).
Proof.
  rewrite amap_amap2. apply atake_amap2. intros a b.
  apply take_wheel. pose proof (px_k1_range a b). lia.
Qed.

Lemma shaded_plane_px (i : nat) (u v : ndarray R) :
  amap (fun c => astype_uint8 (np_floor (255 * c)))
    (shade (amap2 px_rad u v) (amap2 (px_base i) u v))
  = amap2 (px_channel i) u v.
Proof.
  rewrite shade_px, amap_amap2. apply amap2_ext. intros a b.
  unfold px_channel. reflexivity.
Qed.

(** C3.  In [flow_compute_color], at every pixel [k0] is the floor of [fk]
    and [k1] is [k0 + 1] unless that equals [ncols] = 55, in which case it
    is 1; so [k0] ranges over 0..54 and [k1] over 1..54.  The look-ups
    [tmp[k0]] and [tmp[k1]] succeed and read the entries [k0] and [k1] of
    the wheel, and channel [i] of the returned image is computed from the
    interpolation between exactly these two entries: entry 0 of the palette
    is read as [k0] only, never as the target [k1]. *)
Theorem wheel_indices_wrap_to_one (u v : ndarray R) (convert_to_bgr : bool) :
  same_shape u v ->
  let fk := wheel_pos ncols (angle u v) in
  let k0 := index_k0 fk in
  let k1 := index_k1 ncols k0 in
  let f := weight fk k0 in
  ncols = 55%Z
  /\ Forall2 (Forall2 (fun t k => k = Zfloor t /\ (0 <= k <= 54)%Z)) fk k0
  /\ Forall2 (Forall2 (fun k k' =>
                (k' = if (k + 1 =? ncols)%Z then 1 else k + 1)%Z
                /\ k' <> 0%Z /\ (1 <= k' <= 54)%Z)) k0 k1
  /\ exists img,
       flow_compute_color u v convert_to_bgr = Ok img
       /\ forall i, (i < 3)%nat ->
            let tmp := map (fun row => nth i row 0%Z) Wheel.make_colorwheel in
            let col0 := amap (fun k => IZR (wheel_at k i) / 255.0) k0 in
            let col1 := amap (fun k => IZR (wheel_at k i) / 255.0) k1 in
            atake tmp k0 = Ok (amap (fun k => wheel_at k i) k0)
            /\ atake tmp k1 = Ok (amap (fun k => wheel_at k i) k1)
            /\ plane (if convert_to_bgr then (2 - i)%nat else i) img
               = amap (fun c => astype_uint8 (np_floor (255 * c)))
                   (shade (radius u v)
                      (amap2 Rplus
                         (amap2 Rmult (amap (fun x => 1 - x) f) col0)
                         (amap2 Rmult f col1))).
Proof.
  intros Hs. cbv zeta. split; [exact ncols_55|].
  rewrite (flow_compute_color_px _ _ _ Hs).
  rewrite radius_px, angle_px, wheel_pos_ncols, index_k0_px, index_k1_ncols,
    weight_px.
  split; [|split].
  - apply Forall2_amap2. intros a b. split.
    + apply px_k0_floor.
    + apply px_k0_range.
  - apply Forall2_amap2. intros a b.
    pose proof (px_k1_range a b) as Hr.
    rewrite ncols_55. split; [apply px_k1_step|]. lia.
  - eexists. split; [reflexivity|]. intros i Hi.
    split; [apply atake_k0|]. split; [apply atake_k1|].
    rewrite (plane_px _ _ _ _ Hi), <- (shaded_plane_px i u v).
    do 2 f_equal.
    rewrite !amap_amap2, !amap2_diag. reflexivity.
Qed.

Lemma wheel_indices_wrap_to_one_witness :
  same_shape [[3; 1]] [[4; -2]]
  /\ let u := [[3; 1]] in
     let v := [[4; -2]] in
     let fk := wheel_pos ncols (angle u v) in
     let k0 := index_k0 fk in
     let k1 := index_k1 ncols k0 in
     let f := weight fk k0 in
     ncols = 55%Z
     /\ Forall2 (Forall2 (fun t k => k = Zfloor t /\ (0 <= k <= 54)%Z)) fk k0
     /\ Forall2 (Forall2 (fun k k' =>
                   (k' = if (k + 1 =? ncols)%Z then 1 else k + 1)%Z
                   /\ k' <> 0%Z /\ (1 <= k' <= 54)%Z)) k0 k1
     /\ exists img,
          flow_compute_color u v true = Ok img
          /\ forall i, (i < 3)%nat ->
               let tmp :=
                 map (fun row => nth i row 0%Z) Wheel.make_colorwheel in
               let col0 := amap (fun k => IZR (wheel_at k i) / 255.0) k0 in
               let col1 := amap (fun k => IZR (wheel_at k i) / 255.0) k1 in
               atake tmp k0 = Ok (amap (fun k => wheel_at k i) k0)
               /\ atake tmp k1 = Ok (amap (fun k => wheel_at k i) k1)
               /\ plane (if true then (2 - i)%nat else i) img
                  = amap (fun c => astype_uint8 (np_floor (255 * c)))
                      (shade (radius u v)
                         (amap2 Rplus
                            (amap2 Rmult (amap (fun x => 1 - x) f) col0)
                            (amap2 Rmult f col1))).
Proof.
  assert (Hs : same_shape [[3; 1]] [[4; -2]]) by (repeat constructor).
  split; [exact Hs|].
  exact (wheel_indices_wrap_to_one [[3; 1]] [[4; -2]] true Hs).
Defined.

(** * Radial shading *)

(** C5.  In [flow_compute_color], for each of the three channels the
    interpolation gives a base colour [base], and the channel of the returned
    image is the floor of 255 times a colour [col] that, pixel by pixel, is
    [1 - rad * (1 - base)] where [rad <= 1] and [base * 0.75] where
    [rad > 1]: beyond the unit radius the factor is the constant 0.75
    whatever the radius. *)
Theorem shading_two_regimes (u v : ndarray R) (convert_to_bgr : bool) :
  same_shape u v ->
  let rad := radius u v in
  let fk := wheel_pos ncols (angle u v) in
  let k0 := index_k0 fk in
  let k1 := index_k1 ncols k0 in
  let f := weight fk k0 in
  exists img,
    flow_compute_color u v convert_to_bgr = Ok img
    /\ forall i, (i < 3)%nat ->
         exists base col,
           interpolate (map (fun row => nth i row 0%Z) Wheel.make_colorwheel)
             f k0 k1 = Ok base
           /\ Forall2 (Forall2 shading_rule) (amap2 pair rad base) col
           /\ plane (if convert_to_bgr then (2 - i)%nat else i) img
              = amap (fun c => astype_uint8 (np_floor (255 * c))) col.
Proof.
  intros Hs. cbv zeta.
  rewrite (flow_compute_color_px _ _ _ Hs).
  rewrite radius_px, angle_px, wheel_pos_ncols, index_k0_px, index_k1_ncols,
    weight_px.
  eexists. split; [reflexivity|]. intros i Hi.
  rewrite interpolate_px.
  exists (amap2 (px_base i) u v),
         (shade (amap2 px_rad u v) (amap2 (px_base i) u v)).
  split; [reflexivity|]. split.
  - rewrite shade_px, amap2_diag.
    apply Forall2_amap2. intros a b. unfold shading_rule, px_shade.
    cbn [fst snd].
    destruct (Rle_dec (px_rad a b) 1); split; intros; try reflexivity; lra.
  - now rewrite (plane_px _ _ _ _ Hi), shaded_plane_px.
Qed.

Lemma shading_two_regimes_witness :
  same_shape [[3; 1]] [[4; -2]]
  /\ let u := [[3; 1]] in
     let v := [[4; -2]] in
     let rad := radius u v in
     let fk := wheel_pos ncols (angle u v) in
     let k0 := index_k0 fk in
     let k1 := index_k1 ncols k0 in
     let f := weight fk k0 in
     exists img,
       flow_compute_color u v false = Ok img
       /\ forall i, (i < 3)%nat ->
            exists base col,
              interpolate
                (map (fun row => nth i row 0%Z) Wheel.make_colorwheel)
                f k0 k1 = Ok base
              /\ Forall2 (Forall2 shading_rule) (amap2 pair rad base) col
              /\ plane (if false then (2 - i)%nat else i) img
                 = amap (fun c => astype_uint8 (np_floor (255 * c))) col.
Proof.
  assert (Hs : same_shape [[3; 1]] [[4; -2]]) by (repeat constructor).
  split; [exact Hs|].
  exact (shading_two_regimes [[3; 1]] [[4; -2]] false Hs).
Defined.

(** * Channel order *)

(** C6.  With the swap flag the image is the image computed without it, with
    channels 0 and 2 of every pixel exchanged and channel 1 kept. *)
Theorem channel_swap (u v : ndarray R) :
  same_shape u v ->
  exists img,
    flow_compute_color u v false = Ok img
    /\ Forall (Forall (fun px => length px = 3%nat)) img
    /\ flow_compute_color u v true = Ok (amap swap02 img).
Proof.
  intros Hs. exists (amap2 (px_out false) u v).
  rewrite !flow_compute_color_px by exact Hs.
  split; [reflexivity|]. split.
  - apply Forall_amap2. intros a b. reflexivity.
  - rewrite amap_amap2. reflexivity.
Qed.

Lemma channel_swap_witness :
  same_shape [[0]] [[0]]
  /\ exists img,
       flow_compute_color [[0]] [[0]] false = Ok img
       /\ Forall (Forall (fun px => length px = 3%nat)) img
       /\ flow_compute_color [[0]] [[0]] true = Ok (amap swap02 img).
Proof.
  assert (Hs : same_shape [[0]] [[0]]) by (repeat constructor).
  split; [exact Hs | apply (channel_swap [[0]] [[0]] Hs)].
Defined.

(** * Range of the image *)

Lemma np_clip_byte (z : Z) :
  (0 <= z <= 255)%Z -> np_clip 0 255 (IZR z) = IZR z.
Proof.
  intros [H0 H1]. apply IZR_le in H0. apply IZR_le in H1.
  unfold np_clip, Rmin, Rmax.
  destruct (Rle_dec (IZR z) 0); destruct (Rle_dec _ 255); lra.
Qed.

(** C10.  In [flow_compute_color], for each channel the interpolated base
    colour lies in [0, 1]; the shaded colour, whichever of the two branches
    applies, lies in [0, 1] again; the floor of 255 times it lies in
    0..255, and that floor is the value stored in the returned image, with no
    wrap-around of the 8-bit cast.  Hence every channel value of the image is
    a whole number between 0 and 255, which the clip into [0, 255] of
    [flow2img] leaves as it is. *)
Theorem image_values_in_range (u v : ndarray R) (bgr : bool) :
  same_shape u v ->
  let rad := radius u v in
  let fk := wheel_pos ncols (angle u v) in
  let k0 := index_k0 fk in
  let k1 := index_k1 ncols k0 in
  let f := weight fk k0 in
  exists img,
    flow_compute_color u v bgr = Ok img
    /\ Forall (Forall (Forall (fun z =>
         (0 <= z <= 255)%Z /\ np_clip 0 255 (IZR z) = IZR z))) img
    /\ forall i, (i < 3)%nat ->
         exists base col,
           interpolate (map (fun row => nth i row 0%Z) Wheel.make_colorwheel)
             f k0 k1 = Ok base
           /\ Forall (Forall (fun c => 0 <= c <= 1)) base
           /\ Forall2 (Forall2 shading_rule) (amap2 pair rad base) col
           /\ Forall (Forall (fun c =>
                 0 <= c <= 1 /\ (0 <= Zfloor (255 * c) <= 255)%Z)) col
           /\ plane (if bgr then (2 - i)%nat else i) img
              = amap (fun c => Zfloor (255 * c)) col.
Proof.
  intros Hs. cbv zeta.
  rewrite (flow_compute_color_px _ _ _ Hs).
  rewrite radius_px, angle_px, wheel_pos_ncols, index_k0_px, index_k1_ncols,
    weight_px.
  eexists. split; [reflexivity|]. split.
  - apply Forall_amap2. intros a b.
    assert (H : forall i, (0 <= px_channel i a b <= 255)%Z
                          /\ np_clip 0 255 (IZR (px_channel i a b))
                             = IZR (px_channel i a b))
      by (intros i; split; [|apply np_clip_byte]; apply px_channel_range).
    destruct bgr; simpl; repeat constructor; apply H.
  - intros i Hi. rewrite interpolate_px.
    exists (amap2 (px_base i) u v),
           (shade (amap2 px_rad u v) (amap2 (px_base i) u v)).
    split; [reflexivity|]. split; [|split; [|split]].
    + apply Forall_amap2. intros a b. apply px_base_range.
    + rewrite shade_px, amap2_diag.
      apply Forall2_amap2. intros a b. unfold shading_rule, px_shade.
      cbn [fst snd].
      destruct (Rle_dec (px_rad a b) 1); split; intros; try reflexivity; lra.
    + rewrite shade_px. apply Forall_amap2. intros a b.
      pose proof (px_shade_range (px_rad a b) (px_base i a b)
                    (px_rad_nonneg a b) (px_base_range i a b)) as Hc.
      split; [exact Hc|]. apply Zfloor_range. simpl. lra.
    + rewrite (plane_px _ _ _ _ Hi), shade_px, amap_amap2.
      apply amap2_ext. intros a b. apply px_channel_floor.
Qed.

Lemma image_values_in_range_witness :
  same_shape [[3; 1]] [[4; -2]]
  /\ let u := [[3; 1]] in
     let v := [[4; -2]] in
     let rad := radius u v in
     let fk := wheel_pos ncols (angle u v) in
     let k0 := index_k0 fk in
     let k1 := index_k1 ncols k0 in
     let f := weight fk k0 in
     exists img,
       flow_compute_color u v false = Ok img
       /\ Forall (Forall (Forall (fun z =>
            (0 <= z <= 255)%Z /\ np_clip 0 255 (IZR z) = IZR z))) img
       /\ forall i, (i < 3)%nat ->
            exists base col,
              interpolate
                (map (fun row => nth i row 0%Z) Wheel.make_colorwheel)
                f k0 k1 = Ok base
              /\ Forall (Forall (fun c => 0 <= c <= 1)) base
              /\ Forall2 (Forall2 shading_rule) (amap2 pair rad base) col
              /\ Forall (Forall (fun c =>
                    0 <= c <= 1 /\ (0 <= Zfloor (255 * c) <= 255)%Z)) col
              /\ plane (if false then (2 - i)%nat else i) img
                 = amap (fun c => Zfloor (255 * c)) col.
Proof.
  assert (Hs : same_shape [[3; 1]] [[4; -2]]) by (repeat constructor).
  split; [exact Hs|].
  exact (image_values_in_range [[3; 1]] [[4; -2]] false Hs).
Defined.

(** * Quantisation *)

Lemma map_fixed {A : Type} (f : A -> A) (l : list A) :
  Forall (fun x => f x = x) l -> map f l = l.
Proof.
  induction 1 as [|x l Hx _ IH]; simpl; [reflexivity|].
  now rewrite Hx, IH.
Qed.

Lemma quantize_byte (z : Z) :
  (0 <= z <= 255)%Z -> astype_uint8 (np_clip 0 255 (IZR z)) = z.
Proof.
  intros Hz. rewrite np_clip_byte by exact Hz.
  unfold astype_uint8. rewrite Ztrunc_IZR. now apply wrap8_small.
Qed.

(** C9.  Quantising an image whose values are already whole numbers between
    0 and 255 returns that image. *)
Theorem quantize_idempotent (img : list (ndarray Z)) :
  Forall (Forall (Forall (fun z => (0 <= z <= 255)%Z))) img ->
  quantize (to_float img) = img.
Proof.
  intros Himg. unfold quantize, to_float, amap.
  rewrite map_map. apply map_fixed.
  eapply Forall_impl; [|exact Himg]. intros plane Hplane. simpl.
  rewrite map_map. apply map_fixed.
  eapply Forall_impl; [|exact Hplane]. intros row Hrow. simpl.
  rewrite map_map. apply map_fixed.
  eapply Forall_impl; [|exact Hrow]. intros z Hz. simpl.
  now apply quantize_byte.
Qed.

Lemma quantize_idempotent_witness :
  Forall (Forall (Forall (fun z => (0 <= z <= 255)%Z)))
    [[[0; 128; 255]%Z]]
  /\ quantize (to_float [[[0; 128; 255]%Z]]) = [[[0; 128; 255]%Z]].
Proof.
  assert (H : Forall (Forall (Forall (fun z => (0 <= z <= 255)%Z)))
                [[[0; 128; 255]%Z]])
    by (repeat constructor; lia).
  split; [exact H | apply (quantize_idempotent _ H)].
Defined.

(** ** Shapes of the arrays inside flow_to_color *)

Lemma same_shape_map_seq {A B : Type} (f : nat -> list A) (g : nat -> list B)
  (l : list nat) :
  (forall n, length (f n) = length (g n)) ->
  same_shape (map f l) (map g l).
Proof.
  intros Hfg. unfold same_shape.
  induction l as [|n l IH]; simpl; constructor; auto.
Qed.

Lemma slice_last_same_shape {A : Type} (d : A) (c c' : nat) (t : Tensor A) :
  same_shape (slice_last d c t) (slice_last d c' t).
Proof.
  unfold slice_last.
  destruct (shape t) as [|s0 [|s1 [|s2 [|s3 rest]]]]; try constructor.
  apply same_shape_map_seq. intros n. now rewrite !length_map.
Qed.

Lemma flow_channels_same_shape (flow_uv : Tensor R) (clip_flow : option R) :
  same_shape (fst (flow_channels flow_uv clip_flow))
             (snd (flow_channels flow_uv clip_flow)).
Proof. unfold flow_channels. simpl. apply slice_last_same_shape. Qed.

Lemma same_shape_amap {A B C D : Type} (f : A -> C) (g : B -> D)
  (x : ndarray A) (y : ndarray B) :
  same_shape x y -> same_shape (amap f x) (amap g y).
Proof.
  unfold same_shape, amap.
  induction 1 as [|r s x y Hrs _ IH]; simpl; constructor; auto.
  now rewrite !length_map.
Qed.

Lemma normalize_cases (u v : ndarray R) (max_mag : option R) :
  same_shape u v ->
  normalize u v max_mag = Raise ValueError
  \/ exists u' v', normalize u v max_mag = Ok (u', v') /\ same_shape u' v'.
Proof.
  intros Hs. unfold normalize, np_max.
  destruct (concat (radius u v)) as [|a l]; [now left|].
  right. cbn [bind]. eexists _, _. split; [reflexivity|].
  now apply same_shape_amap.
Qed.

(** Past the two assertions, [flow_to_color] is the normalisation followed
    by the pixel-wise colouring. *)
Lemma flow_to_color_body (flow_uv : Tensor R) (max_mag clip_flow : option R)
  (bgr : bool) :
  dim flow_uv = 4%nat -> nth 1 (shape flow_uv) 0%nat = 2%nat ->
  flow_to_color flow_uv max_mag clip_flow bgr
  = (uv <- normalize (fst (flow_channels flow_uv clip_flow))
                     (snd (flow_channels flow_uv clip_flow)) max_mag ;;
     color <- flow_compute_color (fst uv) (snd uv) bgr ;;
     Ok (permute_0312 0%Z
           (from_numpy_view
              (nth 0 (shape (permute_0231 0 flow_uv)) 0%nat)
              (nth 1 (shape (permute_0231 0 flow_uv)) 0%nat)
              (nth 2 (shape (permute_0231 0 flow_uv)) 0%nat) color))).
Proof.
  intros Hd H2. unfold flow_to_color. rewrite Hd, H2. simpl negb. cbv iota.
  destruct (flow_channels flow_uv clip_flow) as [u v]. reflexivity.
Qed.

(** * The shape precondition *)

(** C8.  [flow_to_color] raises an assertion failure exactly when its input
    does not have 4 dimensions or its second dimension is not 2. *)
Theorem flow_to_color_assertion (flow_uv : Tensor R)
  (max_mag clip_flow : option R) (convert_to_bgr : bool) :
  flow_to_color flow_uv max_mag clip_flow convert_to_bgr = Raise AssertionError
  <-> (dim flow_uv <> 4%nat \/ nth 1 (shape flow_uv) 0%nat <> 2%nat).
Proof.
  split.
  - intros Hraise.
    destruct (Nat.eq_dec (dim flow_uv) 4) as [Hd|Hd]; [|now left].
    destruct (Nat.eq_dec (nth 1 (shape flow_uv) 0%nat) 2) as [H2|H2];
      [|now right].
    exfalso. rewrite (flow_to_color_body _ _ _ _ Hd H2) in Hraise.
    destruct (normalize_cases _ _ max_mag
                (flow_channels_same_shape flow_uv clip_flow))
      as [Hn|(u' & v' & Hn & Hs)]; rewrite Hn in Hraise; cbn [bind] in Hraise.
    + discriminate.
    + simpl fst in Hraise. simpl snd in Hraise.
      rewrite (flow_compute_color_px _ _ _ Hs) in Hraise. discriminate.
  - intros [Hd|H2]; unfold flow_to_color.
    + apply Nat.eqb_neq in Hd. now rewrite Hd.
    + destruct (dim flow_uv =? 4)%nat; [|reflexivity].
      apply Nat.eqb_neq in H2. now rewrite H2.
Qed.

(** ** Tensors built element by element *)

Lemma length_flat_map_seq {A : Type} (f : nat -> list A) (m a n : nat) :
  (forall i, length (f i) = m) ->
  length (flat_map f (seq a n)) = (n * m)%nat.
Proof.
  intros Hf. revert a. induction n as [|n IH]; intros a; simpl.
  - reflexivity.
  - now rewrite length_app, Hf, IH.
Qed.

Lemma build4_length {A : Type} (s0 s1 s2 s3 : nat)
  (f : nat -> nat -> nat -> nat -> A) :
  length (data (build4 s0 s1 s2 s3 f)) = (s0 * s1 * s2 * s3)%nat.
Proof.
  unfold build4. simpl.
  rewrite (length_flat_map_seq _ (s1 * (s2 * s3))); [lia|]. intros i.
  rewrite (length_flat_map_seq _ (s2 * s3)); [lia|]. intros j.
  rewrite (length_flat_map_seq _ s3); [lia|]. intros k.
  now rewrite length_map, length_seq.
Qed.

Lemma build4_Forall {A : Type} (P : A -> Prop) (s0 s1 s2 s3 : nat)
  (f : nat -> nat -> nat -> nat -> A) :
  (forall i j k l, (i < s0 -> j < s1 -> k < s2 -> l < s3 -> P (f i j k l))%nat) ->
  Forall P (data (build4 s0 s1 s2 s3 f)).
Proof.
  intros Hf. unfold build4. simpl.
  apply Forall_flat_map, Forall_forall. intros i Hi. apply in_seq in Hi.
  apply Forall_flat_map, Forall_forall. intros j Hj. apply in_seq in Hj.
  apply Forall_flat_map, Forall_forall. intros k Hk. apply in_seq in Hk.
  apply Forall_map, Forall_forall. intros l Hl. apply in_seq in Hl.
  apply Hf; lia.
Qed.

Lemma all_zero_nth (l : list R) (i : nat) :
  Forall (fun x => x = 0) l -> nth i l 0 = 0.
Proof.
  intros Hl. destruct (nth_in_or_default i l 0) as [Hin|Hd]; [|exact Hd].
  rewrite Forall_forall in Hl. now apply Hl.
Qed.

(** ** The all-zero field *)

Lemma zero_slice (c s0 s1 s2 : nat) (t : Tensor R) :
  shape t = [s0; s1; s2] -> Forall (fun x => x = 0) (data t) ->
  slice_last 0 c t = repeat (repeat 0 s1) s0.
Proof.
  intros Hsh Hz. unfold slice_last. rewrite Hsh.
  rewrite (map_ext _ (fun _ => repeat 0 s1)).
  - now rewrite map_const, length_seq.
  - intros n. rewrite (map_ext _ (fun _ => 0)).
    + now rewrite map_const, length_seq.
    + intros p. now apply all_zero_nth.
Qed.

Lemma zero_channels (s0 s2 s3 : nat) (flow_uv : Tensor R)
  (clip_flow : option R) :
  shape flow_uv = [s0; 2%nat; s2; s3] ->
  Forall (fun x => x = 0) (data flow_uv) ->
  flow_channels flow_uv clip_flow
  = (repeat (repeat 0 (s2 * s3)) s0, repeat (repeat 0 (s2 * s3)) s0).
Proof.
  intros Hsh Hz. unfold flow_channels.
  assert (Hp : shape (view_merge12 (permute_0231 0 flow_uv))
               = [s0; (s2 * s3)%nat; 2%nat])
    by (unfold view_merge12, permute_0231; rewrite Hsh; reflexivity).
  assert (Hd : Forall (fun x => x = 0)
                 (data (view_merge12 (permute_0231 0 flow_uv)))).
  { unfold view_merge12, permute_0231. rewrite Hsh. cbn [shape build4 data].
    apply (build4_Forall (fun x => x = 0)). intros i j k l _ _ _ _.
    unfold get4. rewrite Hsh. now apply all_zero_nth. }
  now rewrite !(zero_slice _ _ _ _ _ Hp Hd).
Qed.

Lemma amap_repeat {A B : Type} (f : A -> B) (a : A) (n p : nat) :
  amap f (repeat (repeat a p) n) = repeat (repeat (f a) p) n.
Proof. unfold amap. now rewrite !map_repeat. Qed.

Lemma map2_repeat {A B C : Type} (f : A -> B -> C) (a : A) (b : B) (n : nat) :
  map2 f (repeat a n) (repeat b n) = repeat (f a b) n.
Proof. induction n as [|n IH]; simpl; [reflexivity|]. now rewrite IH. Qed.

Lemma amap2_repeat {A B C : Type} (f : A -> B -> C) (a : A) (b : B)
  (n p : nat) :
  amap2 f (repeat (repeat a p) n) (repeat (repeat b p) n)
  = repeat (repeat (f a b) p) n.
Proof. unfold amap2. now rewrite map2_repeat, map2_repeat. Qed.

Lemma Forall_repeat2 {A : Type} (P : A -> Prop) (a : A) (n p : nat) :
  P a -> Forall P (concat (repeat (repeat a p) n)).
Proof.
  intros Ha. apply Forall_concat, Forall_forall. intros r Hr.
  apply repeat_spec in Hr. subst r.
  apply Forall_forall. intros x Hx. apply repeat_spec in Hx. now subst x.
Qed.

Lemma length_concat_repeat {A : Type} (r : list A) (n : nat) :
  length (concat (repeat r n)) = (n * length r)%nat.
Proof.
  induction n as [|n IH]; simpl; [reflexivity|].
  now rewrite length_app, IH.
Qed.

Lemma fold_Rmax_zero (l : list R) :
  Forall (fun x => x = 0) l -> fold_left Rmax l 0 = 0.
Proof.
  induction 1 as [|x l Hx _ IH]; simpl; [reflexivity|].
  subst x. replace (Rmax 0 0) with 0; [exact IH|].
  unfold Rmax. destruct (Rle_dec 0 0); reflexivity.
Qed.

Lemma np_max_zero (n p : nat) :
  (0 < n * p)%nat -> np_max (repeat (repeat 0 p) n) = Ok 0.
Proof.
  intros Hnp. unfold np_max.
  pose proof (Forall_repeat2 (fun x => x = 0) 0 n p eq_refl) as Hz.
  destruct (concat (repeat (repeat 0 p) n)) as [|a l] eqn:E.
  - apply (f_equal (@length R)) in E.
    rewrite length_concat_repeat, repeat_length in E. simpl in E. lia.
  - inversion Hz as [|? ? Ha Hl]; subst. f_equal. now apply fold_Rmax_zero.
Qed.

Lemma px_rad_zero : px_rad 0 0 = 0.
Proof. unfold px_rad. rewrite Rsqr_0, Rplus_0_l. apply sqrt_0. Qed.

Lemma px_channel_zero_radius (i : nat) (u v : R) :
  px_rad u v = 0 -> px_channel i u v = 255%Z.
Proof.
  intros Hr. rewrite px_channel_floor, Hr. unfold px_shade.
  destruct (Rle_dec 0 1) as [_|H]; [|lra].
  replace (255 * (1 - 0 * (1 - px_base i u v))) with (IZR 255) by ring.
  apply ZfloorZ.
Qed.

Lemma normalize_zero (n p : nat) :
  (0 < n * p)%nat ->
  normalize (repeat (repeat 0 p) n) (repeat (repeat 0 p) n) None
  = Ok (repeat (repeat 0 p) n, repeat (repeat 0 p) n).
Proof.
  intros Hnp. unfold normalize.
  rewrite radius_px, amap2_repeat, px_rad_zero, (np_max_zero n p Hnp).
  cbn [bind]. rewrite amap_repeat.
  replace (0 / (0 + epsilon)) with 0 by (unfold Rdiv; ring).
  reflexivity.
Qed.

Lemma concat_repeat_repeat {A : Type} (a : A) (n p : nat) :
  concat (repeat (repeat a p) n) = repeat a (n * p).
Proof.
  induction n as [|n IH]; simpl; [reflexivity|].
  now rewrite IH, repeat_app.
Qed.

Lemma white_data (n p : nat) :
  length (concat (concat (repeat (repeat [255; 255; 255]%Z p) n)))
  = (n * p * 3)%nat
  /\ Forall (fun z => z = 255%Z)
       (concat (concat (repeat (repeat [255; 255; 255]%Z p) n))).
Proof.
  rewrite concat_repeat_repeat. split.
  - now rewrite length_concat_repeat.
  - apply Forall_concat, Forall_forall. intros r Hr.
    apply repeat_spec in Hr. subst r. repeat constructor.
Qed.

Lemma same_shape_repeat {A B : Type} (a : A) (b : B) (n p : nat) :
  same_shape (repeat (repeat a p) n) (repeat (repeat b p) n).
Proof.
  unfold same_shape. induction n as [|n IH]; simpl; constructor; auto.
  now rewrite !repeat_length.
Qed.

Lemma px_out_zero (bgr : bool) : px_out bgr 0 0 = [255; 255; 255]%Z.
Proof.
  unfold px_out.
  rewrite !(px_channel_zero_radius _ 0 0 px_rad_zero).
  now destruct bgr.
Qed.

(** The image computed for an all-zero field with at least one pixel. *)
Lemma zero_flow_output (s0 s2 s3 : nat) (flow_uv : Tensor R)
  (clip_flow : option R) (bgr : bool) :
  shape flow_uv = [s0; 2%nat; s2; s3] ->
  Forall (fun x => x = 0) (data flow_uv) ->
  (0 < s0 * (s2 * s3))%nat ->
  flow_to_color flow_uv None clip_flow bgr
  = Ok (permute_0312 0%Z
          (from_numpy_view s0 s2 s3
             (repeat (repeat [255; 255; 255]%Z (s2 * s3)) s0))).
Proof.
  intros Hsh Hz Hpos.
  rewrite flow_to_color_body
    by (unfold dim; rewrite Hsh; reflexivity).
  rewrite (zero_channels s0 s2 s3 _ _ Hsh Hz). cbn [fst snd].
  rewrite (normalize_zero _ _ Hpos). cbn [bind fst snd].
  rewrite flow_compute_color_px by apply same_shape_repeat.
  cbn [bind]. rewrite amap2_repeat, px_out_zero.
  unfold permute_0231 at 1 2 3. rewrite Hsh. reflexivity.
Qed.

Lemma white_tensor (s0 s2 s3 : nat) :
  let img :=
    permute_0312 0%Z
      (from_numpy_view s0 s2 s3
         (repeat (repeat [255; 255; 255]%Z (s2 * s3)) s0)) in
  shape img = [s0; 3%nat; s2; s3]
  /\ length (data img) = (s0 * 3 * s2 * s3)%nat
  /\ Forall (fun z => z = 255%Z) (data img).
Proof.
  cbv zeta. unfold permute_0312, from_numpy_view. cbn [shape].
  split; [reflexivity|]. split; [apply build4_length|].
  destruct (white_data s0 (s2 * s3)) as [Hlen Hall].
  apply (build4_Forall (fun z => z = 255%Z)). intros i j k l Hi Hj Hk Hl.
  unfold get4. cbn [shape data].
  rewrite Forall_nth in Hall. apply Hall. rewrite Hlen.
  assert (i * s2 + k < s0 * s2)%nat by nia.
  assert ((i * s2 + k) * s3 + l < s0 * s2 * s3)%nat by nia.
  nia.
Qed.

(** * The all-zero field *)

(** C4.  For an all-zero motion field of shape [N, 2, H, W] with at least one
    pixel the encoder returns an image of shape [N, 3, H, W] in which every
    value of every channel is 255. *)
Theorem zero_flow_is_white (s0 s2 s3 : nat) (flow_uv : Tensor R)
  (clip_flow : option R) (convert_to_bgr : bool) :
  shape flow_uv = [s0; 2%nat; s2; s3] ->
  Forall (fun x => x = 0) (data flow_uv) ->
  (0 < s0 * (s2 * s3))%nat ->
  exists img,
    flow_to_color flow_uv None clip_flow convert_to_bgr = Ok img
    /\ shape img = [s0; 3%nat; s2; s3]
    /\ length (data img) = (s0 * 3 * s2 * s3)%nat
    /\ Forall (fun z => z = 255%Z) (data img).
Proof.
  intros Hsh Hz Hpos. eexists. split.
  - now apply (zero_flow_output s0 s2 s3).
  - apply white_tensor.
Qed.

Lemma zero_flow_is_white_witness :
  shape (mkTensor [1; 2; 1; 1]%nat [0; 0]) = [1; 2; 1; 1]%nat
  /\ Forall (fun x => x = 0) (data (mkTensor [1; 2; 1; 1]%nat [0; 0]))
  /\ (0 < 1 * (1 * 1))%nat
  /\ exists img,
       flow_to_color (mkTensor [1; 2; 1; 1]%nat [0; 0]) None None false = Ok img
       /\ shape img = [1; 3; 1; 1]%nat
       /\ length (data img) = (1 * 3 * 1 * 1)%nat
       /\ Forall (fun z => z = 255%Z) (data img).
Proof.
  assert (Hz : Forall (fun x => x = 0) (data (mkTensor [1; 2; 1; 1]%nat [0; 0])))
    by (repeat constructor).
  assert (Hp : (0 < 1 * (1 * 1))%nat) by lia.
  split; [reflexivity|]. split; [exact Hz|]. split; [exact Hp|].
  exact (zero_flow_is_white 1 1 1 (mkTensor [1; 2; 1; 1]%nat [0; 0])
           None false eq_refl Hz Hp).
Defined.

(** ** One-pixel fields *)

Lemma one_pixel_channels (a b : R) (clip_flow : option R) :
  flow_channels (mkTensor [1; 2; 1; 1]%nat [a; b]) clip_flow = ([[a]], [[b]]).
Proof. reflexivity. Qed.

Lemma one_pixel_normalize (a b : R) (max_mag : option R) :
  normalize [[a]] [[b]] max_mag
  = let s := match max_mag with Some m => m | None => px_rad a b end in
    Ok ([[a / (s + epsilon)]], [[b / (s + epsilon)]]).
Proof. reflexivity. Qed.

Lemma one_pixel_color (a b : R) (max_mag clip_flow : option R) :
  flow_to_color (mkTensor [1; 2; 1; 1]%nat [a; b]) max_mag clip_flow false
  = let s := match max_mag with Some m => m | None => px_rad a b end in
    Ok (mkTensor [1; 3; 1; 1]%nat
          (px_out false (a / (s + epsilon)) (b / (s + epsilon)))).
Proof.
  rewrite flow_to_color_body by reflexivity.
  rewrite one_pixel_channels. cbn [fst snd].
  rewrite one_pixel_normalize. cbv zeta. cbn [bind fst snd].
  rewrite flow_compute_color_px by (repeat constructor).
  reflexivity.
Qed.

Lemma px_rad_axis (a : R) : px_rad a 0 = Rabs a.
Proof. unfold px_rad. rewrite Rsqr_0, Rplus_0_r. apply sqrt_Rsqr_abs. Qed.

Lemma zero_div (s : R) : 0 / s = 0.
Proof. unfold Rdiv. apply Rmult_0_l. Qed.

(** A vector pointing along the negative [u] axis has angle 0. *)
Lemma px_a_left (x : R) : x < 0 -> px_a x 0 = 0.
Proof.
  intros Hx. unfold px_a, arctan2. rewrite Ropp_0.
  destruct (Rlt_dec 0 (- x)) as [_|H]; [|lra].
  rewrite zero_div, atan_0. apply zero_div.
Qed.

Lemma px_left_indices (x : R) :
  x < 0 -> px_k0 x 0 = 27%Z /\ px_k1 x 0 = 28%Z /\ px_f x 0 = 0.
Proof.
  intros Hx.
  assert (Hfk : px_fk x 0 = IZR 27)
    by (unfold px_fk; rewrite (px_a_left x Hx), ncols_55; lra).
  assert (Hk0 : px_k0 x 0 = 27%Z)
    by (rewrite px_k0_floor, Hfk; apply ZfloorZ).
  split; [exact Hk0|]. split.
  - rewrite px_k1_step, Hk0. reflexivity.
  - unfold px_f. rewrite Hfk, Hk0. lra.
Qed.

Lemma wheel_row_27 :
  wheel_at 27 0 = 0%Z /\ wheel_at 27 1 = 209%Z /\ wheel_at 27 2 = 255%Z.
Proof. vm_compute. repeat split; reflexivity. Qed.

Lemma px_channel_left (i : nat) (x : R) :
  -1 <= x < 0 ->
  px_channel i x 0
  = Zfloor (255 * (1 - - x * (1 - IZR (wheel_at 27 i) / 255.0))).
Proof.
  intros [Hlo Hx].
  destruct (px_left_indices x Hx) as (Hk0 & Hk1 & Hf).
  rewrite px_channel_floor, px_rad_axis, (Rabs_left x Hx).
  unfold px_shade. destruct (Rle_dec (- x) 1) as [_|H]; [|lra].
  unfold px_base. rewrite Hk0, Hk1, Hf. f_equal. ring.
Qed.

Lemma clip_left_field :
  tensor_map (np_clip 0 1) field_left = mkTensor [1; 2; 1; 1]%nat [0; 0].
Proof.
  unfold tensor_map, field_left. cbn [shape data map]. f_equal.
  assert (H1 : np_clip 0 1 (-1) = 0)
    by (unfold np_clip, Rmin, Rmax;
        destruct (Rle_dec (-1) 0); destruct (Rle_dec _ 1); lra).
  assert (H0 : np_clip 0 1 0 = 0)
    by (unfold np_clip, Rmin, Rmax;
        destruct (Rle_dec 0 0); destruct (Rle_dec _ 1); lra).
  now rewrite H1, H0.
Qed.

(** * The clip value *)

(** C1.  The clip value never reaches the channels: [flow_to_color] returns
    the same result with and without it.  On the one-pixel field (-1, 0)
    with clip value 1 it returns the colour (0, 209, 255), whereas on the
    field clamped into [0, 1], which is all zero, it returns white. *)
Theorem clip_flow_is_ignored :
  (forall flow_uv max_mag c bgr,
      flow_to_color flow_uv max_mag (Some c) bgr
      = flow_to_color flow_uv max_mag None bgr)
  /\ flow_to_color field_left None (Some 1) false
     = Ok (mkTensor [1; 3; 1; 1]%nat [0; 209; 255]%Z)
  /\ flow_to_color (tensor_map (np_clip 0 1) field_left) None (Some 1) false
     = Ok (mkTensor [1; 3; 1; 1]%nat [255; 255; 255]%Z).
Proof.
  split; [reflexivity|]. split.
  - unfold field_left. rewrite one_pixel_color. cbv zeta.
    rewrite px_rad_axis, Rabs_left by lra.
    rewrite zero_div.
    assert (Hx : -1 <= -1 / (- -1 + epsilon) < 0).
    { unfold epsilon. split.
      - apply Rmult_le_reg_r with (- -1 + 1e-5); [lra|].
        unfold Rdiv. rewrite Rmult_assoc, Rinv_l by lra. lra.
      - apply Rmult_lt_reg_r with (- -1 + 1e-5); [lra|].
        unfold Rdiv. rewrite Rmult_assoc, Rinv_l by lra. lra. }
    set (x := -1 / (- -1 + epsilon)) in *.
    assert (Hr : x * (1 + epsilon) = -1)
      by (unfold x, epsilon; field; lra).
    unfold epsilon in Hr.
    destruct wheel_row_27 as (W0 & W1 & W2).
    unfold px_out. rewrite !(px_channel_left _ x Hx), W0, W1, W2.
    do 2 f_equal.
    f_equal; [|f_equal; [|f_equal]]; apply Zfloor_eq; simpl; lra.
  - rewrite clip_left_field, one_pixel_color. cbv zeta.
    now rewrite !zero_div, px_out_zero.
Qed.

(** * Further properties of the encoder *)

(** ** Positions in flattened data *)

Lemma nth_flat_map_seq {A : Type} (f : nat -> list A) (m a n i r : nat) (d : A) :
  (forall j, length (f j) = m) -> (i < n)%nat -> (r < m)%nat ->
  nth (i * m + r) (flat_map f (seq a n)) d = nth r (f (a + i)%nat) d.
Proof.
  intros Hf. revert a i. induction n as [|n IH]; intros a i Hi Hr; [lia|].
  simpl. destruct i as [|i].
  - simpl. rewrite app_nth1 by (rewrite Hf; exact Hr).
    now rewrite Nat.add_0_r.
  - replace (S i * m + r)%nat with (length (f a) + (i * m + r))%nat
      by (rewrite Hf; simpl; lia).
    rewrite app_nth2_plus, IH by lia.
    now replace (S a + i)%nat with (a + S i)%nat by lia.
Qed.

Lemma nth_build4 {A : Type} (d : A) (s0 s1 s2 s3 : nat)
  (f : nat -> nat -> nat -> nat -> A) (i j k l : nat) :
  (i < s0)%nat -> (j < s1)%nat -> (k < s2)%nat -> (l < s3)%nat ->
  nth (((i * s1 + j) * s2 + k) * s3 + l) (data (build4 s0 s1 s2 s3 f)) d
  = f i j k l.
Proof.
  intros Hi Hj Hk Hl. unfold build4. cbn [data].
  assert (H3 : forall a b c, length (map (f a b c) (seq 0 s3)) = s3)
    by (intros; now rewrite length_map, length_seq).
  assert (H2 : forall a b,
             length (flat_map (fun c => map (f a b c) (seq 0 s3)) (seq 0 s2))
             = (s2 * s3)%nat)
    by (intros; now apply length_flat_map_seq).
  assert (H1 : forall a,
             length (flat_map (fun b =>
                       flat_map (fun c => map (f a b c) (seq 0 s3)) (seq 0 s2))
                       (seq 0 s1))
             = (s1 * (s2 * s3))%nat)
    by (intros; now apply length_flat_map_seq).
  assert (Hkl : (k * s3 + l < s2 * s3)%nat) by nia.
  assert (Hjkl : (j * (s2 * s3) + (k * s3 + l) < s1 * (s2 * s3))%nat) by nia.
  replace (((i * s1 + j) * s2 + k) * s3 + l)%nat
    with (i * (s1 * (s2 * s3)) + (j * (s2 * s3) + (k * s3 + l)))%nat by ring.
  rewrite (nth_flat_map_seq _ (s1 * (s2 * s3))) by (auto; lia).
  rewrite (nth_flat_map_seq _ (s2 * s3)) by (auto; lia).
  rewrite (nth_flat_map_seq _ s3) by (auto; lia).
  cbn [Nat.add].
  rewrite (nth_indep _ d (f i j k 0%nat)) by (rewrite H3; exact Hl).
  rewrite (map_nth (f i j k)), seq_nth by exact Hl. reflexivity.
Qed.

Lemma nth_map_seq {A : Type} (f : nat -> A) (n i : nat) (d : A) :
  (i < n)%nat -> nth i (map f (seq 0 n)) d = f i.
Proof.
  intros Hi.
  rewrite (nth_indep _ d (f 0%nat)) by (now rewrite length_map, length_seq).
  now rewrite (map_nth f), seq_nth.
Qed.

Lemma nth_concat_uniform {A : Type} (m : nat) (ll : list (list A))
  (i r : nat) (d : A) :
  Forall (fun row => length row = m) ll ->
  (i < length ll)%nat -> (r < m)%nat ->
  nth (i * m + r) (concat ll) d = nth r (nth i ll []) d.
Proof.
  intros Hall. revert i. induction Hall as [|row ll Hrow _ IH]; intros i Hi Hr.
  - simpl in Hi. lia.
  - simpl concat. destruct i as [|i].
    + simpl. now rewrite app_nth1 by lia.
    + replace (S i * m + r)%nat with (length row + (i * m + r))%nat
        by (rewrite Hrow; simpl; lia).
      rewrite app_nth2_plus. simpl in Hi. simpl nth. apply IH; lia.
Qed.

Lemma nth_map2 {A B C : Type} (f : A -> B -> C) (l : list A) (m : list B)
  (i : nat) (da : A) (db : B) (d : C) :
  (i < length l)%nat -> (i < length m)%nat ->
  nth i (map2 f l m) d = f (nth i l da) (nth i m db).
Proof.
  revert m i. induction l as [|a l IH]; intros [|b m] [|i] Hl Hm;
    simpl in *; try lia; [reflexivity|].
  apply IH; lia.
Qed.

Lemma length_map2 {A B C : Type} (f : A -> B -> C) (l : list A) (m : list B) :
  length l = length m -> length (map2 f l m) = length l.
Proof.
  revert m. induction l as [|a l IH]; intros [|b m] H; simpl in *;
    try reflexivity; try discriminate.
  now rewrite IH by congruence.
Qed.

(** ** The channels of a field of shape [N, 2, H, W] *)

Lemma slice_last_shape {A : Type} (d : A) (c s0 s1 s2 : nat) (t : Tensor A) :
  shape t = [s0; s1; s2] -> has_shape s0 s1 (slice_last d c t).
Proof.
  intros Hsh. unfold has_shape, slice_last. rewrite Hsh. split.
  - now rewrite length_map, length_seq.
  - apply Forall_map, Forall_forall. intros n _.
    now rewrite length_map, length_seq.
Qed.

Lemma merged_shape (N H W : nat) (flow_uv : Tensor R) :
  shape flow_uv = [N; 2%nat; H; W] ->
  shape (view_merge12 (permute_0231 0 flow_uv)) = [N; (H * W)%nat; 2%nat].
Proof.
  intros Hsh. unfold view_merge12, permute_0231. rewrite Hsh. reflexivity.
Qed.

Lemma channels_shape (N H W : nat) (flow_uv : Tensor R) (clip_flow : option R) :
  shape flow_uv = [N; 2%nat; H; W] ->
  has_shape N (H * W) (fst (flow_channels flow_uv clip_flow))
  /\ has_shape N (H * W) (snd (flow_channels flow_uv clip_flow)).
Proof.
  intros Hsh. unfold flow_channels. cbn [fst snd].
  split; apply (slice_last_shape _ _ N (H * W) 2), (merged_shape N H W _ Hsh).
Qed.

Lemma slice_at (N H W c n h w : nat) (flow_uv : Tensor R) :
  shape flow_uv = [N; 2%nat; H; W] ->
  (c < 2)%nat -> (n < N)%nat -> (h < H)%nat -> (w < W)%nat ->
  nth (h * W + w)
      (nth n (slice_last 0 c (view_merge12 (permute_0231 0 flow_uv))) []) 0
  = get4 0 flow_uv n c h w.
Proof.
  intros Hsh Hc Hn Hh Hw.
  unfold slice_last. rewrite (merged_shape N H W _ Hsh).
  assert (Hp : (h * W + w < H * W)%nat) by nia.
  rewrite (nth_map_seq _ N n) by exact Hn.
  rewrite (nth_map_seq _ (H * W)) by exact Hp.
  unfold view_merge12, permute_0231. rewrite Hsh. cbn [shape data build4].
  replace ((n * (H * W) + (h * W + w)) * 2 + c)%nat
    with (((n * H + h) * W + w) * 2 + c)%nat by ring.
  apply (nth_build4 0 N H W 2
           (fun i j k l => get4 0 flow_uv i l j k)); assumption.
Qed.

Lemma channels_at (N H W n h w : nat) (flow_uv : Tensor R)
  (clip_flow : option R) :
  shape flow_uv = [N; 2%nat; H; W] ->
  (n < N)%nat -> (h < H)%nat -> (w < W)%nat ->
  nth (h * W + w) (nth n (fst (flow_channels flow_uv clip_flow)) []) 0
  = get4 0 flow_uv n 0 h w
  /\ nth (h * W + w) (nth n (snd (flow_channels flow_uv clip_flow)) []) 0
     = get4 0 flow_uv n 1 h w.
Proof.
  intros Hsh Hn Hh Hw. unfold flow_channels. cbn [fst snd].
  split; apply (slice_at N H W); auto.
Qed.

(** ** Shapes through the element-wise operations *)

Lemma has_shape_amap {A B : Type} (f : A -> B) (n p : nat) (x : ndarray A) :
  has_shape n p x -> has_shape n p (amap f x).
Proof.
  intros [Hn Hp]. unfold has_shape, amap. split.
  - now rewrite length_map.
  - apply Forall_map. eapply Forall_impl; [|exact Hp].
    intros row Hrow. now rewrite length_map.
Qed.

Lemma has_shape_amap2 {A B C : Type} (f : A -> B -> C) (n p : nat)
  (x : ndarray A) (y : ndarray B) :
  has_shape n p x -> has_shape n p y -> has_shape n p (amap2 f x y).
Proof.
  intros [Hxn Hxp] [Hyn Hyp]. unfold has_shape, amap2.
  subst n. revert y Hyn Hyp.
  induction Hxp as [|r x Hr _ IH]; intros [|s y] Hyn Hyp; simpl in *;
    try discriminate; [split; [reflexivity|constructor]|].
  inversion Hyp as [|? ? Hs Hyp']; subst.
  destruct (IH y) as [Hlen Hall]; [congruence | exact Hyp' |].
  split; [now rewrite Hlen|].
  constructor; [|exact Hall].
  rewrite length_map2; congruence.
Qed.

Lemma has_shape_same {A B : Type} (n p : nat) (x : ndarray A) (y : ndarray B) :
  has_shape n p x -> has_shape n p y -> same_shape x y.
Proof.
  intros [Hxn Hxp] [Hyn Hyp]. unfold same_shape. subst n. revert y Hyn Hyp.
  induction Hxp as [|r x Hr _ IH]; intros [|s y] Hyn Hyp; simpl in *;
    try discriminate; constructor.
  - inversion Hyp; subst. congruence.
  - inversion Hyp; subst. apply IH; [congruence | assumption].
Qed.

Lemma amap2_at {A B C : Type} (f : A -> B -> C) (n p i j : nat)
  (x : ndarray A) (y : ndarray B) (da : A) (db : B) (d : C) :
  has_shape n p x -> has_shape n p y -> (i < n)%nat -> (j < p)%nat ->
  nth j (nth i (amap2 f x y) []) d
  = f (nth j (nth i x []) da) (nth j (nth i y []) db).
Proof.
  intros [Hxn Hxp] [Hyn Hyp] Hi Hj. unfold amap2.
  rewrite (nth_map2 _ x y i [] []) by lia.
  rewrite Forall_nth in Hxp, Hyp.
  apply nth_map2.
  - rewrite Hxp by lia. exact Hj.
  - rewrite Hyp by lia. exact Hj.
Qed.

Lemma amap_at {A B : Type} (f : A -> B) (n p i j : nat)
  (x : ndarray A) (da : A) (d : B) :
  has_shape n p x -> (i < n)%nat -> (j < p)%nat ->
  nth j (nth i (amap f x) []) d = f (nth j (nth i x []) da).
Proof.
  intros [Hxn Hxp] Hi Hj. unfold amap.
  rewrite (nth_indep _ [] (map f [])) by (rewrite length_map; lia).
  rewrite (map_nth (map f)).
  rewrite Forall_nth in Hxp.
  rewrite (nth_indep _ d (f da)) by (rewrite length_map, Hxp; lia).
  apply (map_nth f).
Qed.

(** ** The largest radius and the normalisation *)

Lemma length_concat_uniform {A : Type} (n p : nat) (x : ndarray A) :
  has_shape n p x -> length (concat x) = (n * p)%nat.
Proof.
  intros [Hn Hp]. subst n. induction Hp as [|row x Hrow _ IH]; simpl.
  - reflexivity.
  - now rewrite length_app, IH, Hrow.
Qed.

Lemma np_max_empty (n p : nat) (x : ndarray R) :
  has_shape n p x -> (n * p = 0)%nat -> np_max x = Raise ValueError.
Proof.
  intros Hx Hnp. unfold np_max.
  pose proof (length_concat_uniform n p x Hx) as Hlen. rewrite Hnp in Hlen.
  apply length_zero_iff_nil in Hlen. now rewrite Hlen.
Qed.

Lemma np_max_nonempty (n p : nat) (x : ndarray R) :
  has_shape n p x -> (0 < n * p)%nat -> exists m, np_max x = Ok m.
Proof.
  intros Hx Hnp. unfold np_max.
  pose proof (length_concat_uniform n p x Hx) as Hlen.
  destruct (concat x) as [|a l]; [simpl in Hlen; lia|]. now eexists.
Qed.

Lemma radius_shape (n p : nat) (u v : ndarray R) :
  has_shape n p u -> has_shape n p v -> has_shape n p (radius u v).
Proof. intros Hu Hv. rewrite radius_px. now apply has_shape_amap2. Qed.

Lemma normalize_ok (u v : ndarray R) (max_mag : option R) (rad_max : R) :
  np_max (radius u v) = Ok rad_max ->
  normalize u v max_mag
  = Ok (amap (fun x => x / (scale_of max_mag rad_max + epsilon)) u,
        amap (fun x => x / (scale_of max_mag rad_max + epsilon)) v).
Proof.
  intros Hmax. unfold normalize. rewrite Hmax. now destruct max_mag.
Qed.

(** ** The returned tensor *)

Lemma flow_to_color_ok (N H W : nat) (flow_uv : Tensor R)
  (max_mag clip_flow : option R) (bgr : bool) (rad_max : R) :
  shape flow_uv = [N; 2%nat; H; W] ->
  np_max (radius (fst (flow_channels flow_uv clip_flow))
                 (snd (flow_channels flow_uv clip_flow))) = Ok rad_max ->
  flow_to_color flow_uv max_mag clip_flow bgr
  = Ok (permute_0312 0%Z
          (from_numpy_view N H W
             (amap2 (px_out bgr)
                (amap (fun x => x / (scale_of max_mag rad_max + epsilon))
                      (fst (flow_channels flow_uv clip_flow)))
                (amap (fun x => x / (scale_of max_mag rad_max + epsilon))
                      (snd (flow_channels flow_uv clip_flow)))))).
Proof.
  intros Hsh Hmax.
  rewrite flow_to_color_body by (unfold dim; rewrite Hsh; reflexivity).
  rewrite (normalize_ok _ _ _ _ Hmax). cbn [bind fst snd].
  rewrite flow_compute_color_px
    by (apply same_shape_amap, flow_channels_same_shape).
  cbn [bind]. unfold permute_0231 at 1 2 3. rewrite Hsh. reflexivity.
Qed.

Lemma flow_to_color_empty (N H W : nat) (flow_uv : Tensor R)
  (max_mag clip_flow : option R) (bgr : bool) :
  shape flow_uv = [N; 2%nat; H; W] -> (N * (H * W) = 0)%nat ->
  flow_to_color flow_uv max_mag clip_flow bgr = Raise ValueError.
Proof.
  intros Hsh Hnp.
  rewrite flow_to_color_body by (unfold dim; rewrite Hsh; reflexivity).
  destruct (channels_shape N H W flow_uv clip_flow Hsh) as [Hu Hv].
  unfold normalize.
  now rewrite (np_max_empty N (H * W) _ (radius_shape _ _ _ _ Hu Hv) Hnp).
Qed.

Lemma output_shape (N H W : nat) (color : ndarray (list Z)) :
  shape (permute_0312 0%Z (from_numpy_view N H W color)) = [N; 3%nat; H; W]
  /\ length (data (permute_0312 0%Z (from_numpy_view N H W color)))
     = (N * 3 * H * W)%nat.
Proof.
  unfold permute_0312, from_numpy_view. cbn [shape].
  split; [reflexivity | apply build4_length].
Qed.

Lemma output_at (N H W n c h w : nat) (color : ndarray (list Z)) :
  has_shape N (H * W) color ->
  Forall (Forall (fun px => length px = 3%nat)) color ->
  (n < N)%nat -> (c < 3)%nat -> (h < H)%nat -> (w < W)%nat ->
  get4 0%Z (permute_0312 0%Z (from_numpy_view N H W color)) n c h w
  = nth c (nth (h * W + w) (nth n color []) []) 0%Z.
Proof.
  intros Hcol Hpx Hn Hc Hh Hw.
  unfold permute_0312, from_numpy_view. cbn [shape].
  unfold get4 at 1. cbn [shape build4].
  change (flat_map _ (seq 0 N))
    with (data (build4 N 3 H W
                  (fun i j k l =>
                     get4 0%Z (mkTensor [N; H; W; 3%nat]
                                 (concat (concat color))) i k l j))).
  rewrite nth_build4 by assumption.
  unfold get4. cbn [shape data].
  assert (Hp : (h * W + w < H * W)%nat) by nia.
  assert (Hq : ((n * H + h) * W + w < N * (H * W))%nat) by nia.
  rewrite (nth_concat_uniform 3) ; [| now apply Forall_concat | | exact Hc].
  - replace ((n * H + h) * W + w)%nat with (n * (H * W) + (h * W + w))%nat
      by ring.
    rewrite (nth_concat_uniform (H * W)); [reflexivity | | | exact Hp].
    + apply Hcol.
    + destruct Hcol as [HN _]. lia.
  - now rewrite (length_concat_uniform N (H * W)).
Qed.

Lemma nth_Forall_default {A : Type} (P : A -> Prop) (l : list A) (i : nat) (d : A) :
  Forall P l -> P d -> P (nth i l d).
Proof.
  intros Hl Hd. destruct (nth_in_or_default i l d) as [Hin|He].
  - rewrite Forall_forall in Hl. now apply Hl.
  - now rewrite He.
Qed.

Lemma px_out_range (bgr : bool) (a b : R) :
  length (px_out bgr a b) = 3%nat
  /\ Forall (fun z => (0 <= z <= 255)%Z) (px_out bgr a b).
Proof.
  split; [now destruct bgr|].
  destruct bgr; simpl; repeat constructor; apply px_channel_range.
Qed.

Lemma one_vector_color (a b : R) (bgr : bool) :
  flow_compute_color [[a]] [[b]] bgr = Ok [[px_out bgr a b]].
Proof. rewrite flow_compute_color_px by (repeat constructor). reflexivity. Qed.

(** ** Errors and success of flow_to_color *)

(** X1.  On an input of shape [N, 2, H, W], [flow_to_color] raises a
    [ValueError] exactly when the field has no pixel, whatever the cap, the
    clip value and the channel order: the maximum of an empty array of radii
    is taken before the cap is looked at. *)
Theorem flow_to_color_value_error (N H W : nat) (flow_uv : Tensor R)
  (max_mag clip_flow : option R) (convert_to_bgr : bool) :
  shape flow_uv = [N; 2%nat; H; W] ->
  (flow_to_color flow_uv max_mag clip_flow convert_to_bgr = Raise ValueError
   <-> (N * (H * W) = 0)%nat).
Proof.
  intros Hsh. split.
  - intros Hraise.
    destruct (Nat.eq_dec (N * (H * W)) 0) as [E|E]; [exact E|exfalso].
    destruct (channels_shape N H W flow_uv clip_flow Hsh) as [Hu Hv].
    destruct (np_max_nonempty N (H * W) _ (radius_shape _ _ _ _ Hu Hv))
      as [m Hm]; [lia|].
    rewrite (flow_to_color_ok N H W _ _ _ _ m Hsh Hm) in Hraise.
    discriminate.
  - now apply flow_to_color_empty.
Qed.

Lemma flow_to_color_value_error_witness :
  shape (mkTensor [1; 2; 0; 3]%nat (@nil R)) = [1; 2; 0; 3]%nat
  /\ (flow_to_color (mkTensor [1; 2; 0; 3]%nat []) (Some 1) None false
      = Raise ValueError
      <-> (1 * (0 * 3) = 0)%nat).
Proof.
  split; [reflexivity|].
  exact (flow_to_color_value_error 1 0 3 (mkTensor [1; 2; 0; 3]%nat [])
           (Some 1) None false eq_refl).
Defined.

(** X2.  On a field of shape [N, 2, H, W] with at least one pixel, and a cap
    (if any) whose divisor [cap + epsilon] is not zero, [flow_to_color]
    returns a tensor of shape [N, 3, H, W] with [N * 3 * H * W] values, each
    of them between 0 and 255. *)
Theorem flow_to_color_image (N H W : nat) (flow_uv : Tensor R)
  (max_mag clip_flow : option R) (convert_to_bgr : bool) :
  shape flow_uv = [N; 2%nat; H; W] ->
  (0 < N * (H * W))%nat ->
  (forall m, max_mag = Some m -> m + epsilon <> 0) ->
  exists img,
    flow_to_color flow_uv max_mag clip_flow convert_to_bgr = Ok img
    /\ shape img = [N; 3%nat; H; W]
    /\ length (data img) = (N * 3 * H * W)%nat
    /\ Forall (fun z => (0 <= z <= 255)%Z) (data img).
Proof.
  intros Hsh Hpos _.
  destruct (channels_shape N H W flow_uv clip_flow Hsh) as [Hu Hv].
  destruct (np_max_nonempty N (H * W) _ (radius_shape _ _ _ _ Hu Hv) Hpos)
    as [m Hm].
  rewrite (flow_to_color_ok N H W _ _ _ _ m Hsh Hm).
  eexists. split; [reflexivity|].
  destruct (output_shape N H W
              (amap2 (px_out convert_to_bgr)
                 (amap (fun x => x / (scale_of max_mag m + epsilon))
                       (fst (flow_channels flow_uv clip_flow)))
                 (amap (fun x => x / (scale_of max_mag m + epsilon))
                       (snd (flow_channels flow_uv clip_flow)))))
    as [Hs Hl].
  split; [exact Hs|]. split; [exact Hl|].
  unfold permute_0312, from_numpy_view. cbn [shape].
  apply (build4_Forall (fun z => (0 <= z <= 255)%Z)). intros i j k l _ _ _ _.
  unfold get4. cbn [shape data].
  apply nth_Forall_default; [|lia].
  apply Forall_concat, Forall_concat, Forall_amap2. intros a b.
  apply px_out_range.
Qed.

Lemma flow_to_color_image_witness :
  shape field_diag = [1; 2; 1; 1]%nat
  /\ (0 < 1 * (1 * 1))%nat
  /\ (forall m, Some 1 = Some m -> m + epsilon <> 0)
  /\ exists img,
       flow_to_color field_diag (Some 1) None true = Ok img
       /\ shape img = [1; 3; 1; 1]%nat
       /\ length (data img) = (1 * 3 * 1 * 1)%nat
       /\ Forall (fun z => (0 <= z <= 255)%Z) (data img).
Proof.
  assert (Hp : (0 < 1 * (1 * 1))%nat) by lia.
  assert (Hc : forall m, Some 1 = Some m -> m + epsilon <> 0)
    by (intros m E; injection E as <-; unfold epsilon; lra).
  split; [reflexivity|]. split; [exact Hp|]. split; [exact Hc|].
  exact (flow_to_color_image 1 1 1 field_diag (Some 1) None true
           eq_refl Hp Hc).
Defined.

(** X3.  Pixel for pixel: the value at [n, c, h, w] of the returned tensor
    is channel [c] of the colour that [flow_compute_color] gives to the single
    vector [(flow_uv[n, 0, h, w], flow_uv[n, 1, h, w])] divided by the
    divisor of the whole field.  The permutations and views move no pixel to
    another place. *)
Theorem flow_to_color_pixel (N H W n c h w : nat) (flow_uv : Tensor R)
  (max_mag clip_flow : option R) (convert_to_bgr : bool) :
  shape flow_uv = [N; 2%nat; H; W] ->
  (n < N)%nat -> (c < 3)%nat -> (h < H)%nat -> (w < W)%nat ->
  (forall m, max_mag = Some m -> m + epsilon <> 0) ->
  exists rad_max img px,
    np_max (radius (fst (flow_channels flow_uv clip_flow))
                   (snd (flow_channels flow_uv clip_flow))) = Ok rad_max
    /\ flow_to_color flow_uv max_mag clip_flow convert_to_bgr = Ok img
    /\ flow_compute_color
         [[get4 0 flow_uv n 0 h w / (scale_of max_mag rad_max + epsilon)]]
         [[get4 0 flow_uv n 1 h w / (scale_of max_mag rad_max + epsilon)]]
         convert_to_bgr = Ok [[px]]
    /\ get4 0%Z img n c h w = nth c px 0%Z.
Proof.
  intros Hsh Hn Hc Hh Hw _.
  destruct (channels_shape N H W flow_uv clip_flow Hsh) as [Hu Hv].
  assert (Hpos : (0 < N * (H * W))%nat)
    by (repeat apply Nat.mul_pos_pos; lia).
  assert (Hp : (h * W + w < H * W)%nat) by nia.
  destruct (np_max_nonempty N (H * W) _ (radius_shape _ _ _ _ Hu Hv) Hpos)
    as [m Hm].
  exists m. eexists. eexists. split; [exact Hm|].
  split; [exact (flow_to_color_ok N H W _ _ _ _ m Hsh Hm)|].
  split; [apply one_vector_color|].
  destruct (channels_at N H W n h w flow_uv clip_flow Hsh Hn Hh Hw)
    as [Eu Ev].
  set (s := scale_of max_mag m + epsilon).
  rewrite output_at; try assumption.
  - rewrite (amap2_at _ N (H * W) n (h * W + w) _ _ 0 0)
      by (try apply has_shape_amap; assumption).
    rewrite !(amap_at _ N (H * W) n (h * W + w) _ 0) by assumption.
    now rewrite Eu, Ev.
  - apply has_shape_amap2; now apply has_shape_amap.
  - apply Forall_amap2. intros a b. apply px_out_range.
Qed.

Lemma flow_to_color_pixel_witness :
  shape field_diag = [1; 2; 1; 1]%nat
  /\ (0 < 1)%nat /\ (2 < 3)%nat
  /\ (forall m, @None R = Some m -> m + epsilon <> 0)
  /\ exists rad_max img px,
       np_max (radius (fst (flow_channels field_diag None))
                      (snd (flow_channels field_diag None))) = Ok rad_max
       /\ flow_to_color field_diag None None false = Ok img
       /\ flow_compute_color
            [[get4 0 field_diag 0 0 0 0 / (scale_of None rad_max + epsilon)]]
            [[get4 0 field_diag 0 1 0 0 / (scale_of None rad_max + epsilon)]]
            false = Ok [[px]]
       /\ get4 0%Z img 0 2 0 0 = nth 2 px 0%Z.
Proof.
  assert (H1 : (0 < 1)%nat) by lia.
  assert (H3 : (2 < 3)%nat) by lia.
  assert (Hc : forall m, @None R = Some m -> m + epsilon <> 0)
    by (intros m E; discriminate E).
  split; [reflexivity|]. split; [exact H1|]. split; [exact H3|].
  split; [exact Hc|].
  exact (flow_to_color_pixel 1 1 1 0 2 0 0 field_diag None None false
           eq_refl H1 H3 H1 H1 Hc).
Defined.

(** ** Pixels beyond the unit radius *)

Lemma px_channel_over (i : nat) (a b : R) :
  1 < px_rad a b ->
  px_channel i a b = Zfloor (255 * (px_base i a b * 0.75))
  /\ (0 <= px_channel i a b <= 191)%Z.
Proof.
  intros Hr.
  assert (E : px_channel i a b = Zfloor (255 * (px_base i a b * 0.75))).
  { rewrite px_channel_floor. unfold px_shade.
    destruct (Rle_dec (px_rad a b) 1); [lra | reflexivity]. }
  split; [exact E|]. split; [apply px_channel_range|].
  rewrite E. destruct (px_base_range i a b) as [_ H1].
  assert (H : (Zfloor (255 * (px_base i a b * 0.75)) < 192)%Z); [|lia].
  apply lt_IZR. destruct (Zfloor_bound (255 * (px_base i a b * 0.75))).
  lra.
Qed.

Lemma px_out_over (bgr : bool) (a b : R) :
  1 < px_rad a b -> Forall (fun z => (0 <= z <= 191)%Z) (px_out bgr a b).
Proof.
  intros Hr. destruct bgr; simpl; repeat constructor;
    apply (px_channel_over _ a b Hr).
Qed.

(** ** Magnitude and colour *)

(** X5.  A pixel whose radius exceeds 1 is darkened: each of its three
    channel values is at most 191, the floor of 255 * 0.75. *)
Theorem over_range_is_darkened (u v : ndarray R) (convert_to_bgr : bool) :
  same_shape u v ->
  exists img,
    flow_compute_color u v convert_to_bgr = Ok img
    /\ Forall2 (Forall2 (fun r px =>
                  1 < r -> Forall (fun z => (0 <= z <= 191)%Z) px))
         (radius u v) img.
Proof.
  intros Hs. rewrite (flow_compute_color_px _ _ _ Hs).
  eexists. split; [reflexivity|].
  rewrite radius_px. apply Forall2_amap2. intros a b. apply px_out_over.
Qed.

Lemma over_range_is_darkened_witness :
  same_shape [[3]] [[4]]
  /\ exists img,
       flow_compute_color [[3]] [[4]] false = Ok img
       /\ Forall2 (Forall2 (fun r px =>
                     1 < r -> Forall (fun z => (0 <= z <= 191)%Z) px))
            (radius [[3]] [[4]]) img.
Proof.
  assert (Hs : same_shape [[3]] [[4]]) by (repeat constructor).
  split; [exact Hs | exact (over_range_is_darkened [[3]] [[4]] false Hs)].
Defined.

(** X6.  A pixel of radius 0 is white, whatever the other pixels are. *)
Theorem zero_vector_is_white (u v : ndarray R) (convert_to_bgr : bool) :
  same_shape u v ->
  exists img,
    flow_compute_color u v convert_to_bgr = Ok img
    /\ Forall2 (Forall2 (fun r px => r = 0 -> px = [255; 255; 255]%Z))
         (radius u v) img.
Proof.
  intros Hs. rewrite (flow_compute_color_px _ _ _ Hs).
  eexists. split; [reflexivity|].
  rewrite radius_px. apply Forall2_amap2. intros a b Hr.
  unfold px_out. rewrite !(px_channel_zero_radius _ a b Hr).
  now destruct convert_to_bgr.
Qed.

Lemma zero_vector_is_white_witness :
  same_shape [[0; 3]] [[0; 4]]
  /\ exists img,
       flow_compute_color [[0; 3]] [[0; 4]] true = Ok img
       /\ Forall2 (Forall2 (fun r px => r = 0 -> px = [255; 255; 255]%Z))
            (radius [[0; 3]] [[0; 4]]) img.
Proof.
  assert (Hs : same_shape [[0; 3]] [[0; 4]]) by (repeat constructor).
  split; [exact Hs | exact (zero_vector_is_white _ _ true Hs)].
Defined.

(** ** Shape and independence of the rows *)

Lemma map2_app {A B C : Type} (f : A -> B -> C) (l1 l2 : list A)
  (m1 m2 : list B) :
  length l1 = length m1 ->
  map2 f (l1 ++ l2) (m1 ++ m2) = map2 f l1 m1 ++ map2 f l2 m2.
Proof.
  revert m1. induction l1 as [|a l1 IH]; intros [|b m1] Hlen; simpl in *;
    try discriminate; [reflexivity|].
  now rewrite IH by congruence.
Qed.

(** X9.  The image has the shape of the two arrays: as many rows, as many
    pixels in each row, and three channels in every pixel. *)
Theorem flow_compute_color_shape (n p : nat) (u v : ndarray R)
  (convert_to_bgr : bool) :
  has_shape n p u -> has_shape n p v ->
  exists img,
    flow_compute_color u v convert_to_bgr = Ok img
    /\ has_shape n p img
    /\ Forall (Forall (fun px => length px = 3%nat)) img.
Proof.
  intros Hu Hv.
  rewrite flow_compute_color_px by (now apply (has_shape_same n p)).
  eexists. split; [reflexivity|]. split.
  - now apply has_shape_amap2.
  - apply Forall_amap2. intros a b. apply px_out_range.
Qed.

Lemma flow_compute_color_shape_witness :
  has_shape 1 2 [[0; 3]] /\ has_shape 1 2 [[0; 4]]
  /\ exists img,
       flow_compute_color [[0; 3]] [[0; 4]] false = Ok img
       /\ has_shape 1 2 img
       /\ Forall (Forall (fun px => length px = 3%nat)) img.
Proof.
  assert (Hu : has_shape 1 2 [[0; 3]]) by (split; repeat constructor).
  assert (Hv : has_shape 1 2 [[0; 4]]) by (split; repeat constructor).
  split; [exact Hu|]. split; [exact Hv|].
  exact (flow_compute_color_shape 1 2 _ _ false Hu Hv).
Defined.

(** X10.  Rows are coloured independently: the image of two stacked pairs
    of arrays is the image of the first stacked on the image of the second.
    Inside [flow_compute_color] no pixel influences another. *)
Theorem rows_are_independent (u1 v1 u2 v2 : ndarray R)
  (convert_to_bgr : bool) :
  same_shape u1 v1 -> same_shape u2 v2 ->
  exists img1 img2,
    flow_compute_color u1 v1 convert_to_bgr = Ok img1
    /\ flow_compute_color u2 v2 convert_to_bgr = Ok img2
    /\ flow_compute_color (u1 ++ u2) (v1 ++ v2) convert_to_bgr
       = Ok (img1 ++ img2).
Proof.
  intros H1 H2.
  rewrite (flow_compute_color_px _ _ _ H1), (flow_compute_color_px _ _ _ H2).
  rewrite flow_compute_color_px by (now apply Forall2_app).
  do 2 eexists. split; [reflexivity|]. split; [reflexivity|].
  unfold amap2. rewrite map2_app; [reflexivity|].
  exact (Forall2_length H1).
Qed.

Lemma rows_are_independent_witness :
  same_shape [[0; 3]] [[0; 4]] /\ same_shape [[1]] [[1]]
  /\ exists img1 img2,
       flow_compute_color [[0; 3]] [[0; 4]] false = Ok img1
       /\ flow_compute_color [[1]] [[1]] false = Ok img2
       /\ flow_compute_color ([[0; 3]] ++ [[1]]) ([[0; 4]] ++ [[1]]) false
          = Ok (img1 ++ img2).
Proof.
  assert (H1 : same_shape [[0; 3]] [[0; 4]]) by (repeat constructor).
  assert (H2 : same_shape [[1]] [[1]]) by (repeat constructor).
  split; [exact H1|]. split; [exact H2|].
  exact (rows_are_independent _ _ _ _ false H1 H2).
Defined.

(** ** Channel order of the returned tensor *)

Lemma px_out_swap (a b : R) (c : nat) :
  (c < 3)%nat ->
  nth c (px_out true a b) 0%Z = nth (2 - c) (px_out false a b) 0%Z.
Proof.
  intros Hc. unfold px_out.
  destruct c as [|[|[|c]]]; cbn [nth Nat.sub];
    [reflexivity | reflexivity | reflexivity |].
  exfalso. lia.
Qed.

(** X11.  In the returned tensor the flag exchanges the planes 0 and 2 of the
    channel axis: the value at [n, c, h, w] with the flag is the value at
    [n, 2 - c, h, w] without it. *)
Theorem flow_to_color_bgr (N H W n c h w : nat) (flow_uv : Tensor R)
  (max_mag clip_flow : option R) :
  shape flow_uv = [N; 2%nat; H; W] ->
  (n < N)%nat -> (c < 3)%nat -> (h < H)%nat -> (w < W)%nat ->
  (forall m, max_mag = Some m -> m + epsilon <> 0) ->
  exists rgb bgr,
    flow_to_color flow_uv max_mag clip_flow false = Ok rgb
    /\ flow_to_color flow_uv max_mag clip_flow true = Ok bgr
    /\ get4 0%Z bgr n c h w = get4 0%Z rgb n (2 - c) h w.
Proof.
  intros Hsh Hn Hc Hh Hw _.
  destruct (channels_shape N H W flow_uv clip_flow Hsh) as [Hu Hv].
  assert (Hpos : (0 < N * (H * W))%nat)
    by (repeat apply Nat.mul_pos_pos; lia).
  assert (Hp : (h * W + w < H * W)%nat) by nia.
  destruct (np_max_nonempty N (H * W) _ (radius_shape _ _ _ _ Hu Hv) Hpos)
    as [m Hm].
  rewrite !(flow_to_color_ok N H W _ _ _ _ m Hsh Hm).
  do 2 eexists. split; [reflexivity|]. split; [reflexivity|].
  assert (Hshape : forall b,
             has_shape N (H * W)
               (amap2 (px_out b)
                  (amap (fun x => x / (scale_of max_mag m + epsilon))
                        (fst (flow_channels flow_uv clip_flow)))
                  (amap (fun x => x / (scale_of max_mag m + epsilon))
                        (snd (flow_channels flow_uv clip_flow)))))
    by (intros b; apply has_shape_amap2; now apply has_shape_amap).
  assert (Hpx : forall b x y,
             Forall (Forall (fun px => length px = 3%nat))
               (amap2 (px_out b) x y))
    by (intros b x y; apply Forall_amap2; intros; apply px_out_range).
  rewrite !output_at by (auto; lia).
  rewrite !(amap2_at _ N (H * W) n (h * W + w) _ _ 0 0)
    by (try apply has_shape_amap; assumption).
  now apply px_out_swap.
Qed.

Lemma flow_to_color_bgr_witness :
  shape field_diag = [1; 2; 1; 1]%nat
  /\ (0 < 1)%nat /\ (2 < 3)%nat
  /\ (forall m, @None R = Some m -> m + epsilon <> 0)
  /\ exists rgb bgr,
       flow_to_color field_diag None None false = Ok rgb
       /\ flow_to_color field_diag None None true = Ok bgr
       /\ get4 0%Z bgr 0 2 0 0 = get4 0%Z rgb 0 (2 - 2) 0 0.
Proof.
  assert (H1 : (0 < 1)%nat) by lia.
  assert (H3 : (2 < 3)%nat) by lia.
  assert (Hc : forall m, @None R = Some m -> m + epsilon <> 0)
    by (intros m E; discriminate E).
  split; [reflexivity|]. split; [exact H1|]. split; [exact H3|].
  split; [exact Hc|].
  exact (flow_to_color_bgr 1 1 1 0 2 0 0 field_diag None None
           eq_refl H1 H3 H1 H1 Hc).
Defined.

(** ** flow_to_color never fails on a palette index *)

Lemma flow_to_color_outcomes (flow_uv : Tensor R)
  (max_mag clip_flow : option R) (bgr : bool) :
  flow_to_color flow_uv max_mag clip_flow bgr = Raise AssertionError
  \/ flow_to_color flow_uv max_mag clip_flow bgr = Raise ValueError
  \/ exists img, flow_to_color flow_uv max_mag clip_flow bgr = Ok img.
Proof.
  destruct (Nat.eq_dec (dim flow_uv) 4) as [Hd|Hd].
  - destruct (Nat.eq_dec (nth 1 (shape flow_uv) 0%nat) 2) as [H2|H2].
    + right. rewrite (flow_to_color_body _ _ _ _ Hd H2).
      destruct (normalize_cases _ _ max_mag
                  (flow_channels_same_shape flow_uv clip_flow))
        as [Hn|(u' & v' & Hn & Hs)]; rewrite Hn; cbn [bind fst snd].
      * now left.
      * right. rewrite (flow_compute_color_px _ _ _ Hs). cbn [bind].
        now eexists.
    + left. unfold flow_to_color. rewrite Hd. cbn.
      apply Nat.eqb_neq in H2. now rewrite H2.
  - left. unfold flow_to_color. apply Nat.eqb_neq in Hd. now rewrite Hd.
Qed.

(** X12.  For a real-valued field and a cap (if any) whose divisor
    [cap + epsilon] is not zero, [flow_to_color] ends in one of three ways:
    an assertion failure, the [ValueError] of the maximum of an empty array,
    or an image.  The look-ups [tmp[k0]] and [tmp[k1]] in the colour wheel do
    not raise an [IndexError]. *)
Theorem flow_to_color_no_index_error (flow_uv : Tensor R)
  (max_mag clip_flow : option R) (convert_to_bgr : bool) :
  (forall m, max_mag = Some m -> m + epsilon <> 0) ->
  flow_to_color flow_uv max_mag clip_flow convert_to_bgr <> Raise IndexError
  /\ (flow_to_color flow_uv max_mag clip_flow convert_to_bgr
      = Raise AssertionError
      \/ flow_to_color flow_uv max_mag clip_flow convert_to_bgr
         = Raise ValueError
      \/ exists img,
           flow_to_color flow_uv max_mag clip_flow convert_to_bgr = Ok img).
Proof.
  intros _.
  pose proof (flow_to_color_outcomes flow_uv max_mag clip_flow convert_to_bgr)
    as Hcases.
  split; [|exact Hcases].
  destruct Hcases as [E|[E|[img E]]]; rewrite E; discriminate.
Qed.

Lemma flow_to_color_no_index_error_witness :
  (forall m, Some 2 = Some m -> m + epsilon <> 0)
  /\ flow_to_color field_diag (Some 2) None false <> Raise IndexError
  /\ (flow_to_color field_diag (Some 2) None false = Raise AssertionError
      \/ flow_to_color field_diag (Some 2) None false = Raise ValueError
      \/ exists img, flow_to_color field_diag (Some 2) None false = Ok img).
Proof.
  assert (Hc : forall m, Some 2 = Some m -> m + epsilon <> 0)
    by (intros m E; injection E as <-; unfold epsilon; lra).
  split; [exact Hc|].
  exact (flow_to_color_no_index_error field_diag (Some 2) None false Hc).
Defined.

(** ** flow2img *)

Lemma quantize_to_float (img : list (ndarray Z)) :
  Forall (Forall (Forall (fun z => (0 <= z <= 255)%Z))) img ->
  quantize (to_float img) = img.
Proof.
  intros Himg. unfold quantize, to_float, amap.
  rewrite map_map. apply map_fixed.
  eapply Forall_impl; [|exact Himg]. intros plane Hplane. cbn beta.
  rewrite map_map. apply map_fixed.
  eapply Forall_impl; [|exact Hplane]. intros row Hrow. cbn beta.
  rewrite map_map. apply map_fixed.
  eapply Forall_impl; [|exact Hrow]. intros z Hz. cbn beta.
  now apply quantize_byte.
Qed.

Lemma first_hwc_range (color : Tensor Z) :
  Forall (fun z => (0 <= z <= 255)%Z) (data color) ->
  Forall (Forall (Forall (fun z => (0 <= z <= 255)%Z))) (first_hwc 0%Z color).
Proof.
  intros Hd. unfold first_hwc.
  destruct (shape color) as [|s0 [|s1 [|s2 [|s3 [|s4 rest]]]]] eqn:Hsh;
    try constructor.
  apply Forall_map, Forall_forall. intros h _.
  apply Forall_map, Forall_forall. intros w _.
  apply Forall_map, Forall_forall. intros c _.
  unfold get4. rewrite Hsh. apply nth_Forall_default; [exact Hd | lia].
Qed.

Lemma output_range (N H W : nat) (bgr : bool) (x y : ndarray R) :
  Forall (fun z => (0 <= z <= 255)%Z)
    (data (permute_0312 0%Z (from_numpy_view N H W (amap2 (px_out bgr) x y)))).
Proof.
  unfold permute_0312, from_numpy_view. cbn [shape].
  apply (build4_Forall (fun z => (0 <= z <= 255)%Z)). intros i j k l _ _ _ _.
  unfold get4. cbn [shape data].
  apply nth_Forall_default; [|lia].
  apply Forall_concat, Forall_concat, Forall_amap2. intros a b.
  apply px_out_range.
Qed.

(** [flow2img] passes on what [flow_to_color] raises, and otherwise returns
    the colour tensor read as [H, W, C]: the clip and the cast change
    nothing. *)
Lemma flow2img_cases (flow_uv : Tensor R) :
  (forall e, flow_to_color (unsqueeze0 flow_uv) None None false = Raise e ->
             flow2img flow_uv = Raise e)
  /\ (forall H W rad_max,
         shape flow_uv = [2%nat; H; W] ->
         np_max (radius (fst (flow_channels (unsqueeze0 flow_uv) None))
                        (snd (flow_channels (unsqueeze0 flow_uv) None)))
         = Ok rad_max ->
         exists color,
           flow_to_color (unsqueeze0 flow_uv) None None false = Ok color
           /\ shape color = [1; 3; H; W]%nat
           /\ flow2img flow_uv = Ok (first_hwc 0%Z color)).
Proof.
  split.
  - intros e He. unfold flow2img. now rewrite He.
  - intros H W m Hsh Hm.
    assert (Hsh4 : shape (unsqueeze0 flow_uv) = [1; 2; H; W]%nat)
      by (unfold unsqueeze0; cbn [shape]; now rewrite Hsh).
    pose proof (flow_to_color_ok 1 H W _ None None false m Hsh4 Hm) as Hok.
    eexists. split; [exact Hok|].
    split; [apply (output_shape 1 H W)|].
    unfold flow2img. rewrite Hok. cbn [bind]. f_equal.
    apply quantize_to_float, first_hwc_range, output_range.
Qed.

Lemma flow_to_color_asserts (flow_uv : Tensor R)
  (max_mag clip_flow : option R) (bgr : bool) :
  dim flow_uv <> 4%nat \/ nth 1 (shape flow_uv) 0%nat <> 2%nat ->
  flow_to_color flow_uv max_mag clip_flow bgr = Raise AssertionError.
Proof.
  intros [Hd|H2]; unfold flow_to_color.
  - apply Nat.eqb_neq in Hd. now rewrite Hd.
  - destruct (dim flow_uv =? 4)%nat; [|reflexivity].
    apply Nat.eqb_neq in H2. now rewrite H2.
Qed.

Lemma flow_to_color_past_asserts (flow_uv : Tensor R)
  (max_mag clip_flow : option R) (bgr : bool) :
  dim flow_uv = 4%nat -> nth 1 (shape flow_uv) 0%nat = 2%nat ->
  flow_to_color flow_uv max_mag clip_flow bgr <> Raise AssertionError.
Proof.
  intros Hd H2. rewrite (flow_to_color_body _ _ _ _ Hd H2).
  destruct (normalize_cases _ _ max_mag
              (flow_channels_same_shape flow_uv clip_flow))
    as [Hn|(u' & v' & Hn & Hs)]; rewrite Hn; cbn [bind fst snd].
  - discriminate.
  - rewrite (flow_compute_color_px _ _ _ Hs). discriminate.
Qed.

Lemma flow2img_ok_inv (flow_uv : Tensor R) (color : Tensor Z) :
  flow_to_color (unsqueeze0 flow_uv) None None false = Ok color ->
  exists img, flow2img flow_uv = Ok img.
Proof. intros Hc. unfold flow2img. rewrite Hc. now eexists. Qed.

(** X13.  [flow2img] raises an assertion failure exactly when its input does
    not have 3 dimensions or its first dimension is not 2. *)
Theorem flow2img_assertion (flow_uv : Tensor R) :
  flow2img flow_uv = Raise AssertionError
  <-> (dim flow_uv <> 3%nat \/ nth 0 (shape flow_uv) 0%nat <> 2%nat).
Proof.
  destruct (flow2img_cases flow_uv) as [Hraise _].
  split.
  - intros Hf.
    destruct (Nat.eq_dec (dim flow_uv) 3) as [Hd|Hd]; [|now left].
    destruct (Nat.eq_dec (nth 0 (shape flow_uv) 0%nat) 2) as [H2|H2];
      [|now right].
    exfalso.
    assert (Hd4 : dim (unsqueeze0 flow_uv) = 4%nat)
      by (unfold dim, unsqueeze0 in *; cbn [shape length]; lia).
    pose proof (flow_to_color_past_asserts (unsqueeze0 flow_uv) None None
                  false Hd4 H2) as Hna.
    destruct (flow_to_color_outcomes (unsqueeze0 flow_uv) None None false)
      as [E|[E|[img E]]].
    + contradiction.
    + rewrite (Hraise _ E) in Hf. discriminate.
    + destruct (flow2img_ok_inv _ _ E) as [x Hx]. rewrite Hx in Hf.
      discriminate.
  - intros Hbad. apply Hraise, flow_to_color_asserts.
    unfold dim, unsqueeze0 in *. cbn [shape length nth].
    destruct Hbad as [Hd|H2]; [left; lia | now right].
Qed.

(** X14.  On an input of shape [2, H, W], [flow2img] raises a [ValueError]
    exactly when the field has no pixel. *)
Theorem flow2img_value_error (H W : nat) (flow_uv : Tensor R) :
  shape flow_uv = [2%nat; H; W] ->
  (flow2img flow_uv = Raise ValueError <-> (H * W = 0)%nat).
Proof.
  intros Hsh.
  assert (Hsh4 : shape (unsqueeze0 flow_uv) = [1; 2; H; W]%nat)
    by (unfold unsqueeze0; cbn [shape]; now rewrite Hsh).
  destruct (flow2img_cases flow_uv) as [Hraise Hok].
  split.
  - intros Hf.
    destruct (Nat.eq_dec (H * W) 0) as [E|E]; [exact E|exfalso].
    destruct (channels_shape 1 H W _ None Hsh4) as [Hu Hv].
    destruct (np_max_nonempty 1 (H * W) _ (radius_shape _ _ _ _ Hu Hv))
      as [m Hm]; [lia|].
    destruct (Hok H W m Hsh Hm) as (color & _ & _ & Himg).
    rewrite Himg in Hf. discriminate.
  - intros Hnp. apply Hraise.
    apply (flow_to_color_empty 1 H W); [exact Hsh4 | lia].
Qed.

Lemma flow2img_value_error_witness :
  shape (mkTensor [2; 0; 4]%nat (@nil R)) = [2; 0; 4]%nat
  /\ (flow2img (mkTensor [2; 0; 4]%nat []) = Raise ValueError
      <-> (0 * 4 = 0)%nat).
Proof.
  split; [reflexivity|].
  exact (flow2img_value_error 0 4 (mkTensor [2; 0; 4]%nat []) eq_refl).
Defined.

Lemma first_hwc_at (H W h w c : nat) (color : Tensor Z) :
  shape color = [1; 3; H; W]%nat ->
  (h < H)%nat -> (w < W)%nat -> (c < 3)%nat ->
  nth c (nth w (nth h (first_hwc 0%Z color) []) []) 0%Z
  = get4 0%Z color 0 c h w.
Proof.
  intros Hsh Hh Hw Hc. unfold first_hwc. rewrite Hsh.
  rewrite (nth_map_seq _ H h) by exact Hh.
  rewrite (nth_map_seq _ W w) by exact Hw.
  now rewrite (nth_map_seq _ 3 c) by exact Hc.
Qed.

Lemma first_hwc_shape (H W : nat) (color : Tensor Z) :
  shape color = [1; 3; H; W]%nat ->
  has_shape H W (first_hwc 0%Z color)
  /\ Forall (Forall (fun px => length px = 3%nat)) (first_hwc 0%Z color).
Proof.
  intros Hsh. unfold has_shape, first_hwc. rewrite Hsh. split; [split|].
  - now rewrite length_map, length_seq.
  - apply Forall_map, Forall_forall. intros h _.
    now rewrite length_map, length_seq.
  - apply Forall_map, Forall_forall. intros h _.
    apply Forall_map, Forall_forall. intros w _.
    now rewrite length_map, length_seq.
Qed.

(** X15.  On a field of shape [2, H, W] with at least one pixel [flow2img]
    returns an image of [H] rows of [W] pixels of three channels, whose
    values lie between 0 and 255 and are those of the tensor returned by
    [flow_to_color], read as [H, W, C]: the value at [h, w, c] is the value
    at [0, c, h, w], and the final clip and cast alter none of them. *)
Theorem flow2img_image (H W : nat) (flow_uv : Tensor R) :
  shape flow_uv = [2%nat; H; W] ->
  (0 < H * W)%nat ->
  exists color img,
    flow_to_color (unsqueeze0 flow_uv) None None false = Ok color
    /\ flow2img flow_uv = Ok img
    /\ has_shape H W img
    /\ Forall (Forall (fun px => length px = 3%nat)) img
    /\ Forall (Forall (Forall (fun z => (0 <= z <= 255)%Z))) img
    /\ forall h w c,
         (h < H)%nat -> (w < W)%nat -> (c < 3)%nat ->
         nth c (nth w (nth h img []) []) 0%Z = get4 0%Z color 0 c h w.
Proof.
  intros Hsh Hpos.
  assert (Hsh4 : shape (unsqueeze0 flow_uv) = [1; 2; H; W]%nat)
    by (unfold unsqueeze0; cbn [shape]; now rewrite Hsh).
  destruct (flow2img_cases flow_uv) as [_ Hok].
  destruct (channels_shape 1 H W _ None Hsh4) as [Hu Hv].
  destruct (np_max_nonempty 1 (H * W) _ (radius_shape _ _ _ _ Hu Hv))
    as [m Hm]; [lia|].
  destruct (Hok H W m Hsh Hm) as (color & Hcol & Hcsh & Himg).
  exists color, (first_hwc 0%Z color).
  split; [exact Hcol|]. split; [exact Himg|].
  destruct (first_hwc_shape H W color Hcsh) as [Hs Hp].
  split; [exact Hs|]. split; [exact Hp|]. split.
  - apply first_hwc_range.
    rewrite (flow_to_color_ok 1 H W _ None None false m Hsh4 Hm) in Hcol.
    injection Hcol as <-. apply output_range.
  - intros h w c Hh Hw Hc. now apply (first_hwc_at H W).
Qed.

Lemma flow2img_image_witness :
  shape (mkTensor [2; 1; 1]%nat [1; 1]) = [2; 1; 1]%nat
  /\ (0 < 1 * 1)%nat
  /\ exists color img,
       flow_to_color (unsqueeze0 (mkTensor [2; 1; 1]%nat [1; 1]))
         None None false = Ok color
       /\ flow2img (mkTensor [2; 1; 1]%nat [1; 1]) = Ok img
       /\ has_shape 1 1 img
       /\ Forall (Forall (fun px => length px = 3%nat)) img
       /\ Forall (Forall (Forall (fun z => (0 <= z <= 255)%Z))) img
       /\ forall h w c,
            (h < 1)%nat -> (w < 1)%nat -> (c < 3)%nat ->
            nth c (nth w (nth h img []) []) 0%Z = get4 0%Z color 0 c h w.
Proof.
  assert (Hp : (0 < 1 * 1)%nat) by lia.
  split; [reflexivity|]. split; [exact Hp|].
  exact (flow2img_image 1 1 (mkTensor [2; 1; 1]%nat [1; 1]) eq_refl Hp).
Defined.

Lemma nth_repeat_lt {A : Type} (a d : A) (n i : nat) :
  (i < n)%nat -> nth i (repeat a n) d = a.
Proof.
  intros Hi. apply (repeat_spec n a).
  apply nth_In. now rewrite repeat_length.
Qed.

Lemma white_first_hwc (H W : nat) :
  first_hwc 0%Z
    (permute_0312 0%Z
       (from_numpy_view 1 H W (repeat (repeat [255; 255; 255]%Z (H * W)) 1)))
  = repeat (repeat [255; 255; 255]%Z W) H.
Proof.
  set (color := repeat (repeat [255; 255; 255]%Z (H * W)) 1).
  destruct (output_shape 1 H W color) as [Hsh _].
  unfold first_hwc. rewrite Hsh.
  assert (Hcol : has_shape 1 (H * W) color).
  { unfold color. split; [reflexivity|]. repeat constructor.
    apply repeat_length. }
  assert (Hpx : Forall (Forall (fun px => length px = 3%nat)) color).
  { unfold color. repeat constructor.
    apply Forall_forall. intros px Hin. apply repeat_spec in Hin.
    now subst px. }
  replace (repeat (repeat [255; 255; 255]%Z W) H)
    with (map (fun _ : nat => repeat [255; 255; 255]%Z W) (seq 0 H))
    by (now rewrite map_const, length_seq).
  apply map_ext_in. intros h Hh. apply in_seq in Hh.
  replace (repeat [255; 255; 255]%Z W)
    with (map (fun _ : nat => [255; 255; 255]%Z) (seq 0 W))
    by (now rewrite map_const, length_seq).
  apply map_ext_in. intros w Hw. apply in_seq in Hw.
  change [255; 255; 255]%Z with (map (fun _ : nat => 255%Z) (seq 0 3)).
  apply map_ext_in. intros c Hc. apply in_seq in Hc.
  rewrite output_at by (auto; lia).
  assert (Hp : (h * W + w < H * W)%nat) by nia.
  unfold color. cbn [repeat nth].
  rewrite nth_repeat_lt by exact Hp.
  destruct c as [|[|[|c]]]; cbn [nth]; try reflexivity. lia.
Qed.

Lemma flow2img_zero_white_helper (H W : nat) (flow_uv : Tensor R) :
  shape flow_uv = [2%nat; H; W] ->
  Forall (fun x => x = 0) (data flow_uv) ->
  (0 < H * W)%nat ->
  flow2img flow_uv = Ok (repeat (repeat [255; 255; 255]%Z W) H).
Proof.
  intros Hsh Hz Hpos.
  assert (Hsh4 : shape (unsqueeze0 flow_uv) = [1; 2; H; W]%nat)
    by (unfold unsqueeze0; cbn [shape]; now rewrite Hsh).
  unfold flow2img.
  rewrite (zero_flow_output 1 H W (unsqueeze0 flow_uv) None false Hsh4)
    by (try exact Hz; lia).
  cbn [bind]. rewrite white_first_hwc. f_equal.
  apply quantize_to_float.
  apply Forall_forall. intros row Hrow. apply repeat_spec in Hrow. subst row.
  apply Forall_forall. intros px Hpx. apply repeat_spec in Hpx. subst px.
  repeat constructor; lia.
Qed.

(** X16.  An all-zero field of shape [2, H, W] with at least one pixel is
    drawn by [flow2img] as [H] rows of [W] white pixels (255, 255, 255). *)
Theorem flow2img_zero_is_white (H W : nat) (flow_uv : Tensor R) :
  shape flow_uv = [2%nat; H; W] ->
  Forall (fun x => x = 0) (data flow_uv) ->
  (0 < H * W)%nat ->
  flow2img flow_uv = Ok (repeat (repeat [255; 255; 255]%Z W) H).
Proof. exact (flow2img_zero_white_helper H W flow_uv). Qed.

Lemma flow2img_zero_is_white_witness :
  shape (mkTensor [2; 1; 2]%nat [0; 0; 0; 0]) = [2; 1; 2]%nat
  /\ Forall (fun x => x = 0) (data (mkTensor [2; 1; 2]%nat [0; 0; 0; 0]))
  /\ (0 < 1 * 2)%nat
  /\ flow2img (mkTensor [2; 1; 2]%nat [0; 0; 0; 0])
     = Ok (repeat (repeat [255; 255; 255]%Z 2) 1).
Proof.
  assert (Hz : Forall (fun x => x = 0)
                 (data (mkTensor [2; 1; 2]%nat [0; 0; 0; 0])))
    by (repeat constructor).
  assert (Hp : (0 < 1 * 2)%nat) by lia.
  split; [reflexivity|]. split; [exact Hz|]. split; [exact Hp|].
  exact (flow2img_zero_is_white 1 2 (mkTensor [2; 1; 2]%nat [0; 0; 0; 0])
           eq_refl Hz Hp).
Defined.

(** ** The quantisation of arbitrary values *)

Lemma Forall2_map_r {A B : Type} (P : A -> B -> Prop) (f : A -> B)
  (l : list A) :
  (forall x, P x (f x)) -> Forall2 P l (map f l).
Proof. intros HP. induction l; simpl; constructor; auto. Qed.

Lemma quantize_value (x : R) :
  let q := astype_uint8 (np_clip 0 255 x) in
  (0 <= q <= 255)%Z
  /\ (x <= 0 -> q = 0%Z)
  /\ (255 <= x -> q = 255%Z)
  /\ (0 <= x <= 255 -> q = Zfloor x).
Proof.
  cbv zeta.
  assert (Hc : 0 <= np_clip 0 255 x <= 255).
  { unfold np_clip, Rmin, Rmax.
    destruct (Rle_dec x 0); destruct (Rle_dec _ 255); lra. }
  assert (Hq : astype_uint8 (np_clip 0 255 x) = Zfloor (np_clip 0 255 x)).
  { unfold astype_uint8, Ztrunc.
    destruct (Rle_dec 0 (np_clip 0 255 x)) as [_|Hn]; [|lra].
    apply wrap8_small, Zfloor_range. simpl. lra. }
  rewrite Hq. split; [apply Zfloor_range; simpl; lra|].
  split; [|split]; intros Hx; f_equal || idtac.
  - replace (np_clip 0 255 x) with (IZR 0); [apply ZfloorZ|].
    unfold np_clip, Rmin, Rmax.
    destruct (Rle_dec x 0); destruct (Rle_dec _ 255); lra.
  - replace (np_clip 0 255 x) with (IZR 255); [apply ZfloorZ|].
    unfold np_clip, Rmin, Rmax.
    destruct (Rle_dec x 0); destruct (Rle_dec _ 255); lra.
  - f_equal. unfold np_clip, Rmin, Rmax.
    destruct (Rle_dec x 0); destruct (Rle_dec _ 255); lra.
Qed.

(** X17.  The quantisation never fails and never reports a value out of
    range: position by position, a value at or below 0 becomes 0, a value at
    or above 255 becomes 255, and a value in between becomes its floor. *)
Theorem quantize_clamps (img : list (ndarray R)) :
  Forall2 (Forall2 (Forall2 (fun x q =>
     (0 <= q <= 255)%Z
     /\ (x <= 0 -> q = 0%Z)
     /\ (255 <= x -> q = 255%Z)
     /\ (0 <= x <= 255 -> q = Zfloor x))))
    img (quantize img).
Proof.
  unfold quantize, amap.
  apply Forall2_map_r. intros plane.
  apply Forall2_map_r. intros row.
  apply Forall2_map_r. intros x.
  apply quantize_value.
Qed.

(** ** A fresh SceneFlow *)

Lemma numel_3 (a b c : nat) : numel [a; b; c] = (a * (b * c))%nat.
Proof. unfold numel. simpl. lia. Qed.

(** X18.  A [SceneFlow] built from coordinates of shape [2, H, W] returns,
    on [forward], a tensor of that shape holding [2 * H * W] zeros; with at
    least one pixel, [flow2img] draws it as an all-white image. *)
Theorem fresh_scene_flow_is_white (H W : nat) (coord : Tensor R) :
  shape coord = [2%nat; H; W] ->
  (0 < H * W)%nat ->
  shape (SceneFlow_forward (SceneFlow_init coord)) = shape coord
  /\ data (SceneFlow_forward (SceneFlow_init coord)) = repeat 0 (2 * (H * W))
  /\ flow2img (SceneFlow_forward (SceneFlow_init coord))
     = Ok (repeat (repeat [255; 255; 255]%Z W) H).
Proof.
  intros Hsh Hpos.
  unfold SceneFlow_forward, SceneFlow_init, torch_zeros. cbn [scene_flow].
  rewrite Hsh, numel_3.
  split; [reflexivity|]. split; [reflexivity|].
  apply flow2img_zero_white_helper; [reflexivity | | exact Hpos].
  cbn [data]. apply Forall_forall. intros x Hx.
  now apply repeat_spec in Hx.
Qed.

Lemma fresh_scene_flow_is_white_witness :
  shape (mkTensor [2; 1; 2]%nat [1; 2; 3; 4]) = [2; 1; 2]%nat
  /\ (0 < 1 * 2)%nat
  /\ shape (SceneFlow_forward
              (SceneFlow_init (mkTensor [2; 1; 2]%nat [1; 2; 3; 4])))
     = shape (mkTensor [2; 1; 2]%nat [1; 2; 3; 4])
  /\ data (SceneFlow_forward
             (SceneFlow_init (mkTensor [2; 1; 2]%nat [1; 2; 3; 4])))
     = repeat 0 (2 * (1 * 2))
  /\ flow2img (SceneFlow_forward
                 (SceneFlow_init (mkTensor [2; 1; 2]%nat [1; 2; 3; 4])))
     = Ok (repeat (repeat [255; 255; 255]%Z 2) 1).
Proof.
  assert (Hp : (0 < 1 * 2)%nat) by lia.
  split; [reflexivity|]. split; [exact Hp|].
  exact (fresh_scene_flow_is_white 1 2 (mkTensor [2; 1; 2]%nat [1; 2; 3; 4])
           eq_refl Hp).
Defined.

(** ** File names *)

Module PathFacts.

Import Stdlib.Strings.String Stdlib.Strings.Ascii.
Import Paths.
Local Open Scope string_scope.

Lemma parse_zeros (k : nat) (s : string) :
  parse_nat (zeros k ++ s) = parse_nat s.
Proof.
  induction k as [|k IH]; [reflexivity|].
  cbn [zeros append]. rewrite <- IH. unfold parse_nat.
  cbn [DecimalString.NilEmpty.uint_of_string].
  destruct (DecimalString.NilEmpty.uint_of_string (zeros k ++ s));
    reflexivity.
Qed.

Lemma parse_str (n : nat) : parse_nat (str n) = Some n.
Proof.
  unfold parse_nat, str. rewrite DecimalString.NilEmpty.usu.
  cbn [option_map]. now rewrite DecimalNat.Unsigned.of_to.
Qed.

Lemma str_head (n : nat) :
  exists c rest, str n = String c rest /\ is_sign c = false.
Proof.
  unfold str. destruct (Nat.to_uint n) eqn:E;
    try (do 2 eexists; split; reflexivity).
  exfalso. pose proof (DecimalNat.Unsigned.of_to n) as Hn.
  rewrite E in Hn. cbn in Hn. subst n. discriminate E.
Qed.

Lemma parse_zfill (width n : nat) : parse_nat (zfill width (str n)) = Some n.
Proof.
  destruct (str_head n) as (c & rest & Hs & Hc).
  unfold zfill. rewrite Hs, Hc. rewrite <- Hs.
  rewrite parse_zeros. apply parse_str.
Qed.

Lemma append_inj_l (s a b : string) : s ++ a = s ++ b -> a = b.
Proof.
  induction s as [|c s IH]; cbn [append]; intros H; [exact H|].
  injection H as H. now apply IH.
Qed.

Lemma length_append (a b : string) :
  String.length (a ++ b) = (String.length a + String.length b)%nat.
Proof.
  induction a as [|c a IH]; cbn [append String.length]; [reflexivity|].
  now rewrite IH.
Qed.

Lemma append_inj_r (a b t : string) : a ++ t = b ++ t -> a = b.
Proof.
  revert b. induction a as [|c a IH]; intros [|d b] H; cbn [append] in H.
  - reflexivity.
  - exfalso. apply (f_equal String.length) in H.
    cbn [String.length] in H. rewrite length_append in H. lia.
  - exfalso. apply (f_equal String.length) in H.
    cbn [String.length] in H. rewrite length_append in H. lia.
  - injection H as -> H. f_equal. now apply IH.
Qed.

Lemma short_names :
  forallb (fun n => (String.length (zfill 3 (str n)) =? 3)%nat) (seq 0 1000)
  = true.
Proof. vm_compute. reflexivity. Qed.

(** X19.  The file name of a frame determines its index: two frames get the
    same path under a folder only if they have the same index, so no frame
    is saved over another; the index is read back from the digits of the
    name, and for an index below 1000 these are exactly three digits. *)
Theorem frame_path_injective (folder : string) (i j : nat) :
  (frame_path folder i = frame_path folder j <-> i = j)
  /\ parse_nat (zfill 3 (str i)) = Some i
  /\ ((i < 1000)%nat -> String.length (zfill 3 (str i)) = 3%nat).
Proof.
  split; [split|split].
  - unfold frame_path. intros H.
    apply append_inj_r in H. apply append_inj_l in H.
    apply (f_equal parse_nat) in H. rewrite !parse_zfill in H.
    now injection H.
  - now intros ->.
  - apply parse_zfill.
  - intros Hi. pose proof short_names as Hall.
    rewrite forallb_forall in Hall.
    apply Nat.eqb_eq, Hall, in_seq. lia.
Qed.

End PathFacts.

Lemma frame_path_injective_witness :
  (7 < 1000)%nat
  /\ String.length (Paths.zfill 3 (Paths.str 7)) = 3%nat.
Proof.
  assert (H : (7 < 1000)%nat) by lia.
  split; [exact H|].
  exact (proj2 (proj2 (PathFacts.frame_path_injective String.EmptyString 7 7))
           H).
Defined.

(** ** Saturation of the wheel *)

Lemma wheel_saturated_check :
  forallb (fun row => existsb (Z.eqb 255) row && existsb (Z.eqb 0) row)
    Wheel.make_colorwheel = true.
Proof. vm_compute. reflexivity. Qed.

Lemma saturated_rows (cw : list (list Z)) :
  forallb (fun row => existsb (Z.eqb 255) row && existsb (Z.eqb 0) row) cw
  = true ->
  Forall (fun row => In 255%Z row /\ In 0%Z row) cw.
Proof.
  intros Hall. apply Forall_forall. intros row Hrow.
  rewrite forallb_forall in Hall. specialize (Hall _ Hrow).
  apply andb_true_iff in Hall. destruct Hall as [H255 H0].
  apply existsb_exists in H255. apply existsb_exists in H0.
  destruct H255 as (x & Hx & Ex). destruct H0 as (y & Hy & Ey).
  apply Z.eqb_eq in Ex. apply Z.eqb_eq in Ey. subst. now split.
Qed.

(** X22.  Every colour of the wheel is a pure hue: one of its channels is
    255 and another is 0. *)
Theorem wheel_colours_are_saturated :
  Forall (fun row => In 255%Z row /\ In 0%Z row) Wheel.make_colorwheel.
Proof. apply saturated_rows, wheel_saturated_check. Qed.
